(** * hagrid: numeric primitives of [src/common.h]

    A shallow embedding of the host/device helpers of [common.h]
    ([clamp], [safe_rcp], [prodsign], [float_to_ordered],
    [ordered_to_float], [icbrt], [Log2], [ilog2]) and the properties
    they satisfy.

    Fixed-width integers are integers of [Z] with the wrap-around of
    every operation written out.  A [float] is represented by its 32-bit
    pattern, which is what the union cast [as<uint32_t>] exposes; its
    IEEE-754 value is obtained with [value], into the [spec_float] of the
    Standard Library. *)

From Stdlib Require Import ZArith Bool Lia.
From Stdlib Require Import Floats.SpecFloat.

Local Open Scope Z_scope.

(** ** Fixed-width integers *)

(** Conversion to an unsigned integer of [w] bits: reduction modulo [2^w]. *)
Definition to_unsigned (w z : Z) : Z := z mod 2 ^ w.

(** Conversion to a signed (two's complement) integer of [w] bits. *)
Definition to_signed (w z : Z) : Z :=
  let u := to_unsigned w z in
  if u <? 2 ^ (w - 1) then u else u - 2 ^ w.

(** [unsigned] and [uint32_t], [int], and the 64-bit [size_t]. *)
Definition u32 (z : Z) : Z := to_unsigned 32 z.
Definition i32 (z : Z) : Z := to_signed 32 z.
Definition size_t (z : Z) : Z := to_unsigned 64 z.

Definition is_u32 (z : Z) : Prop := 0 <= z < 2 ^ 32.

(** ** [min], [max], [clamp]

    The templates only use [operator<] and [operator>] of [T]; a totally
    ordered value type is a type with a decidable strict total order. *)

Module Cmp.

Class Ordered (T : Type) : Type := {
  lt : T -> T -> bool;
  lt_irrefl : forall a, lt a a = false;
  lt_trans : forall a b c, lt a b = true -> lt b c = true -> lt a c = true;
  lt_total : forall a b, lt a b = false -> lt b a = false -> a = b
}.

Definition gt {T} `{Ordered T} (a b : T) : bool := lt b a.
Definition le {T} `{Ordered T} (a b : T) : bool := negb (lt b a).

(** [min(a, b) = a < b ? a : b] *)
Definition min {T} `{Ordered T} (a b : T) : T := if lt a b then a else b.

(** [max(a, b) = a > b ? a : b] *)
Definition max {T} `{Ordered T} (a b : T) : T := if gt a b then a else b.

(** [clamp(a, b, c) = min(c, max(b, a))] *)
Definition clamp {T} `{Ordered T} (a b c : T) : T := min c (max b a).

#[global, refine] Instance Z_Ordered : Ordered Z := {| lt := Z.ltb |}.
Proof.
  - intros a. apply Z.ltb_irrefl.
  - intros a b c H1 H2. apply Z.ltb_lt in H1, H2. apply Z.ltb_lt. lia.
  - intros a b H1 H2. apply Z.ltb_ge in H1, H2. lia.
Defined.

End Cmp.

(** ** IEEE-754 binary32

    A [float] is its bit pattern (a [uint32_t]); [as<uint32_t>(f)] and
    [as<float>(u)] reinterpret the same 32 bits and are the identity on
    patterns. *)

Definition as_uint32 (f : Z) : Z := f.
Definition as_float (u : Z) : Z := u.

Definition prec : Z := 24.
Definition emax : Z := 128.

Definition sign_bit (f : Z) : bool := Z.testbit f 31.
Definition exponent_field (f : Z) : Z := Z.land (Z.shiftr f 23) 0xFF.
Definition mantissa_field (f : Z) : Z := Z.land f 0x7FFFFF.

(** The value of a float with sign [s], biased exponent [e] and fraction
    [m]: zeros and subnormals at [e = 0], infinities and NaNs at
    [e = 255], normal numbers with the implicit leading one otherwise. *)
Definition decode (s : bool) (e m : Z) : spec_float :=
  if e =? 0 then
    match m with
    | Zpos p => S754_finite s p (-149)
    | _ => S754_zero s
    end
  else if e =? 255 then
    (if m =? 0 then S754_infinity s else S754_nan)
  else
    match m + 2 ^ 23 with
    | Zpos p => S754_finite s p (e - 150)
    | _ => S754_nan
    end.

(** The value denoted by a pattern: sign in bit 31, biased exponent in
    bits 30..23, fraction in bits 22..0. *)
Definition value (f : Z) : spec_float :=
  decode (sign_bit f) (exponent_field f) (mantissa_field f).

(** A finite float is neither an infinity nor a NaN. *)
Definition is_finite (f : Z) : bool := negb (exponent_field f =? 255).

Definition is_nan (v : spec_float) : bool :=
  match v with S754_nan => true | _ => false end.

(** The comparisons [a < b] and [a != b] of two floats. *)
Definition flt (a b : Z) : bool := SFltb (value a) (value b).
Definition fne (a b : Z) : bool := negb (SFeqb (value a) (value b)).

(** The quotient [a / b] of two floats, rounded to nearest even. *)
Definition fdiv (a b : Z) : spec_float := SFdiv prec emax (value a) (value b).

(** [copysign(a, b)]: the magnitude of [a] with the sign bit of [b]. *)
Definition copysign (a b : Z) : Z :=
  Z.lor (Z.land a 0x7FFFFFFF) (Z.land b 0x80000000).

(** The patterns of the float literals used below. *)
Definition f32_pos_zero : Z := 0x00000000.
Definition f32_neg_zero : Z := 0x80000000.
Definition f32_pos_inf : Z := 0x7F800000.
Definition f32_neg_inf : Z := 0xFF800000.
Definition f32_0_5 : Z := 0x3F000000.
Definition f32_1_0 : Z := 0x3F800000.
Definition f32_2_0 : Z := 0x40000000.
Definition f32_3_0 : Z := 0x40400000.
Definition f32_4_0 : Z := 0x40800000.
Definition f32_5_0 : Z := 0x40A00000.
Definition f32_neg_1_0 : Z := 0xBF800000.
Definition f32_neg_2_0 : Z := 0xC0000000.
Definition f32_neg_3_0 : Z := 0xC0400000.
Definition f32_neg_5_0 : Z := 0xC0A00000.

(** The float nearest to [m * 2^e]. *)
Definition literal (m e : Z) : spec_float := binary_normalize prec emax m e false.

(** The sign-magnitude reading of a pattern as an integer; finite floats
    are ordered as these integers are (lemma [value_compare]). *)
Definition smag (u : Z) : Z := if u <? 2 ^ 31 then u else 2 ^ 31 - u.

(** The same integer from the three fields. *)
Definition skey (s : bool) (e m : Z) : Z :=
  if s then - (e * 2 ^ 23 + m) else e * 2 ^ 23 + m.

(** ** [safe_rcp] and [prodsign] *)

(** [return x != 0 ? 1.0f / x : copysign(as<float>(0x7f800000u), x);]
    The result is given as an IEEE value: the standard does not fix the
    payload of the NaN that a division may produce. *)
Definition safe_rcp (x : Z) : spec_float :=
  if fne x f32_pos_zero then fdiv f32_1_0 x
  else value (copysign (as_float 0x7F800000) x).

(** [return as<float>(as<uint32_t>(x) ^ (as<uint32_t>(y) & 0x80000000));] *)
Definition prodsign (x y : Z) : Z :=
  as_float (Z.lxor (as_uint32 x) (Z.land (as_uint32 y) 0x80000000)).

(** ** Ordered floats *)

(** [u = as<uint32_t>(f); mask = -(int)(u >> 31u) | 0x80000000u;
    return u ^ mask;] *)
Definition float_to_ordered (f : Z) : Z :=
  let u := as_uint32 f in
  let mask := Z.lor (u32 (- i32 (Z.shiftr u 31))) 0x80000000 in
  Z.lxor u mask.

(** [mask = ((u >> 31u) - 1u) | 0x80000000u; return as<float>(u ^ mask);] *)
Definition ordered_to_float (u : Z) : Z :=
  let mask := Z.lor (u32 (Z.shiftr u 31 - 1)) 0x80000000 in
  as_float (Z.lxor u mask).

(** ** [icbrt] *)

(** One iteration of the loop of [icbrt], on [int x] and [unsigned y]:
    [y = 2 * y; b = (3 * y * (y + 1) + 1) << s;
     if (x >= b) { x = x - b; y = y + 1; }].
    The comparison and the subtraction convert [x] to [unsigned]. *)
Definition icbrt_body (s x y : Z) : Z * Z :=
  let y := u32 (2 * y) in
  let b := u32 (Z.shiftl (u32 (u32 (u32 (3 * y) * u32 (y + 1)) + 1)) s) in
  if u32 x >=? b then (i32 (u32 (u32 x - b)), u32 (y + 1)) else (x, y).

(** [for (int s = 30; s >= 0; s = s - 3) body; return y;] from the loop
    head at [s]. *)
Fixpoint icbrt_loop (fuel : nat) (s x y : Z) : option Z :=
  match fuel with
  | O => None
  | S fuel' =>
      if s >=? 0 then
        let '(x', y') := icbrt_body s x y in
        icbrt_loop fuel' (i32 (s - 3)) x' y'
      else Some (i32 y)
  end.

Definition icbrt (x : Z) : option Z := icbrt_loop 12 30 x 0.

(** The invariant of the loop at a head where [P = 2^(s+3)]: [y] is the
    cube root of [x0] to the precision [P], and [x] is the residual. *)
Definition cube_inv (x0 P x y : Z) : Prop :=
  0 <= y /\ 0 <= x /\ x = x0 - y ^ 3 * P /\ x0 < (y + 1) ^ 3 * P.

(** ** [Log2] and [ilog2] *)

(** The template [Log2<N, I>]: [Log2<1, I>::Value = I], otherwise
    [Log2<N, I>::Value = Log2<N / 2, I + 1>::Value].  [depth] bounds the
    nesting of instantiations; [Log2<0>] has no value at any depth. *)
Fixpoint Log2_inst (depth : nat) (N I : Z) : option Z :=
  match depth with
  | O => None
  | S depth' =>
      if N =? 1 then Some I else Log2_inst depth' (size_t (N / 2)) (size_t (I + 1))
  end.

(** [Log2<N>::Value]: a [size_t] that is not zero reaches 1 in at most 63
    halvings. *)
Definition Log2 (N : Z) : option Z := Log2_inst 64 N 0.

(** The unsigned types [ilog2] is instantiated at. *)
Inductive uint_type : Type := UInt8 | UInt16 | UInt32 | UInt64.

Definition sizeof (T : uint_type) : Z :=
  match T with UInt8 => 1 | UInt16 => 2 | UInt32 => 4 | UInt64 => 8 end.

Definition bits (T : uint_type) : Z := sizeof T * 8.

(** [n] iterations of the loop of [ilog2], with [int a], [size_t b]:
    [m = (a + b) / 2; mask = all << T(m);
     if (t & mask) a = m + 1; else b = m;] and finally [return a]. *)
Fixpoint ilog2_loop (n : nat) (w t all a b : Z) : Z :=
  match n with
  | O => a
  | S n' =>
      let m := size_t (size_t a + b) / 2 in
      let mask := to_unsigned w (Z.shiftl all (to_unsigned w m)) in
      if negb (Z.land t mask =? 0)
      then ilog2_loop n' w t all (i32 (size_t (m + 1))) b
      else ilog2_loop n' w t all a m
  end.

(** [a = 0; b = sizeof(T) * 8; all = T(-1);
    for (int i = 0; i < Log2<sizeof(T) * 8>::Value; i++) ...] *)
Definition ilog2 (T : uint_type) (t : Z) : option Z :=
  match Log2 (bits T) with
  | Some n => Some (ilog2_loop (Z.to_nat n) (bits T) t (to_unsigned (bits T) (-1)) 0 (bits T))
  | None => None
  end.

(** The number of bits of [t]: the least [a] with [t < 2^a]. *)
Definition bit_length (t : Z) : Z := if t =? 0 then 0 else Z.log2 t + 1.

(** [a] is the smallest integer with [(1 << a) >= t]. *)
Definition smallest_exponent (t a : Z) : Prop :=
  0 <= a /\ t <= 2 ^ a /\ forall a', 0 <= a' -> t <= 2 ^ a' -> a <= a'.

(** ** [round_div]

    [return i / j + (i % j ? 1 : 0);] on [int]: [/] truncates toward zero
    and [%] is its remainder.  Division by zero and [INT_MIN / -1] have no
    defined result in C++ and give [None]. *)
Definition round_div (i j : Z) : option Z :=
  if (j =? 0) || ((i =? - 2 ^ 31) && (j =? -1)) then None
  else Some (i32 (Z.quot i j + (if negb (Z.rem i j =? 0) then 1 else 0))).

(** The values of [int]. *)
Definition is_i32 (z : Z) : Prop := - 2 ^ 31 <= z < 2 ^ 31.

(** The sign of an IEEE value, which a NaN does not have. *)
Definition sign_of (v : spec_float) : option bool :=
  match v with
  | S754_zero s | S754_infinity s | S754_finite s _ _ => Some s
  | S754_nan => None
  end.

(** The product [a * b] of two floats, rounded to nearest even. *)
Definition fmul (a b : Z) : spec_float := SFmul prec emax (value a) (value b).

(** The loop of [ilog2] where a shift by the width of [T] or more, which
    C++ leaves undefined, stops the run with [None]. *)
Fixpoint ilog2_loop_checked (n : nat) (w t all a b : Z) : option Z :=
  match n with
  | O => Some a
  | S n' =>
      let m := size_t (size_t a + b) / 2 in
      if to_unsigned w m <? w then
        let mask := to_unsigned w (Z.shiftl all (to_unsigned w m)) in
        if negb (Z.land t mask =? 0)
        then ilog2_loop_checked n' w t all (i32 (size_t (m + 1))) b
        else ilog2_loop_checked n' w t all a m
      else None
  end.

Definition ilog2_checked (T : uint_type) (t : Z) : option Z :=
  match Log2 (bits T) with
  | Some n => ilog2_loop_checked (Z.to_nat n) (bits T) t (to_unsigned (bits T) (-1)) 0 (bits T)
  | None => None
  end.

(** * Properties *)

(** ** Bit-level facts on 32-bit patterns *)

Lemma shiftr31_low u : 0 <= u < 2 ^ 31 -> Z.shiftr u 31 = 0.
Proof.
  intros H. rewrite Z.shiftr_div_pow2 by lia. apply Z.div_small. lia.
Qed.

Lemma shiftr31_high u : 2 ^ 31 <= u < 2 ^ 32 -> Z.shiftr u 31 = 1.
Proof.
  intros H. rewrite Z.shiftr_div_pow2 by lia.
  symmetry. apply (Z.div_unique u (2 ^ 31) 1 (u - 2 ^ 31)); lia.
Qed.

Lemma testbit_above u n i :
  0 <= n -> 0 <= u < 2 ^ n -> n <= i -> Z.testbit u i = false.
Proof.
  intros Hn Hu Hi.
  destruct (Z.eq_dec u 0) as [->|Hne]; [apply Z.bits_0|].
  apply Z.bits_above_log2; [lia|].
  apply Z.lt_le_trans with n; [apply Z.log2_lt_pow2; lia | lia].
Qed.

(** Flipping the top bit of a 32-bit pattern adds or removes [2^31]. *)
Lemma lxor_top_low u : 0 <= u < 2 ^ 31 -> Z.lxor u 0x80000000 = u + 2 ^ 31.
Proof.
  intros H.
  assert (D : Z.land u (2 ^ 31) = 0).
  { apply Z.bits_inj'. intros n Hn. rewrite Z.land_spec, Z.bits_0.
    destruct (Z.eq_dec n 31) as [->|Hne].
    - rewrite (testbit_above u 31 31) by lia. reflexivity.
    - rewrite (Z.pow2_bits_false 31 n) by lia. apply andb_false_r. }
  change 0x80000000 with (2 ^ 31).
  rewrite <- Z.add_nocarry_lxor by exact D. reflexivity.
Qed.

Lemma lxor_top_high u : 2 ^ 31 <= u < 2 ^ 32 -> Z.lxor u 0x80000000 = u - 2 ^ 31.
Proof.
  intros H.
  assert (E : Z.lxor (u - 2 ^ 31) 0x80000000 = u) by (rewrite lxor_top_low; lia).
  rewrite <- E at 1. rewrite Z.lxor_assoc, Z.lxor_nilpotent, Z.lxor_0_r.
  reflexivity.
Qed.

(** Flipping all 32 bits is the complement to [2^32 - 1]. *)
Lemma lxor_ones u : 0 <= u < 2 ^ 32 -> Z.lxor u 0xFFFFFFFF = 2 ^ 32 - 1 - u.
Proof.
  intros H.
  assert (D : Z.land u (2 ^ 32 - 1 - u) = 0).
  { apply Z.bits_inj'. intros n Hn. rewrite Z.land_spec, Z.bits_0.
    destruct (Z_lt_le_dec n 32) as [Hlt|Hge].
    - replace (2 ^ 32 - 1 - u) with (Z.lnot u + 1 * 2 ^ 32)
        by (unfold Z.lnot; lia).
      rewrite <- (Z.mod_pow2_bits_low (Z.lnot u + 1 * 2 ^ 32) 32 n) by lia.
      rewrite Z.mod_add by lia.
      rewrite Z.mod_pow2_bits_low by lia.
      rewrite Z.lnot_spec by lia. apply andb_negb_r.
    - rewrite (testbit_above u 32 n) by lia. reflexivity. }
  assert (S : Z.lxor u (2 ^ 32 - 1 - u) = 0xFFFFFFFF).
  { rewrite <- Z.add_nocarry_lxor by exact D. lia. }
  rewrite <- S at 1.
  rewrite <- Z.lxor_assoc, Z.lxor_nilpotent, Z.lxor_0_l. reflexivity.
Qed.

(** ** Ordered floats: closed forms and round trips *)

(** A non-negative float has its sign bit set, a negative one has all its
    bits flipped. *)
Lemma float_to_ordered_eq u :
  is_u32 u ->
  float_to_ordered u = if u <? 2 ^ 31 then u + 2 ^ 31 else 2 ^ 32 - 1 - u.
Proof.
  unfold is_u32, float_to_ordered, as_uint32. intros H.
  destruct (Z.ltb_spec u (2 ^ 31)) as [L|G].
  - rewrite shiftr31_low by lia. change (Z.lor _ _) with 0x80000000.
    apply lxor_top_low. lia.
  - rewrite shiftr31_high by lia. change (Z.lor _ _) with 0xFFFFFFFF.
    apply lxor_ones. lia.
Qed.

Lemma ordered_to_float_eq u :
  is_u32 u ->
  ordered_to_float u = if u <? 2 ^ 31 then 2 ^ 32 - 1 - u else u - 2 ^ 31.
Proof.
  unfold is_u32, ordered_to_float, as_float. intros H.
  destruct (Z.ltb_spec u (2 ^ 31)) as [L|G].
  - rewrite shiftr31_low by lia. change (Z.lor _ _) with 0xFFFFFFFF.
    apply lxor_ones. lia.
  - rewrite shiftr31_high by lia. change (Z.lor _ _) with 0x80000000.
    apply lxor_top_high. lia.
Qed.

Lemma float_to_ordered_range u : is_u32 u -> is_u32 (float_to_ordered u).
Proof.
  intros H. rewrite float_to_ordered_eq by exact H. unfold is_u32 in *.
  destruct (Z.ltb_spec u (2 ^ 31)); lia.
Qed.

Lemma ordered_to_float_range u : is_u32 u -> is_u32 (ordered_to_float u).
Proof.
  intros H. rewrite ordered_to_float_eq by exact H. unfold is_u32 in *.
  destruct (Z.ltb_spec u (2 ^ 31)); lia.
Qed.

Lemma decode_encode u : is_u32 u -> ordered_to_float (float_to_ordered u) = u.
Proof.
  intros H.
  rewrite ordered_to_float_eq by (apply float_to_ordered_range; exact H).
  rewrite float_to_ordered_eq by exact H. unfold is_u32 in H.
  destruct (Z.ltb_spec u (2 ^ 31));
    match goal with |- context [?a <? ?b] => destruct (Z.ltb_spec a b) end; lia.
Qed.

Lemma encode_decode u : is_u32 u -> float_to_ordered (ordered_to_float u) = u.
Proof.
  intros H.
  rewrite float_to_ordered_eq by (apply ordered_to_float_range; exact H).
  rewrite ordered_to_float_eq by exact H. unfold is_u32 in H.
  destruct (Z.ltb_spec u (2 ^ 31));
    match goal with |- context [?a <? ?b] => destruct (Z.ltb_spec a b) end; lia.
Qed.

(** ** The fields of a pattern and the order of finite floats *)

Lemma sign_bit_eq u : is_u32 u -> sign_bit u = negb (u <? 2 ^ 31).
Proof.
  unfold is_u32, sign_bit. intros H.
  destruct (Z.ltb_spec u (2 ^ 31)) as [L|G]; cbv [negb].
  - apply (testbit_above u 31 31); lia.
  - apply Z.testbit_true; [lia|].
    replace (u / 2 ^ 31) with 1; [reflexivity|].
    apply (Z.div_unique u (2 ^ 31) 1 (u - 2 ^ 31)); lia.
Qed.

Lemma exponent_field_eq u : exponent_field u = (u / 2 ^ 23) mod 2 ^ 8.
Proof.
  unfold exponent_field. change 0xFF with (Z.ones 8).
  rewrite Z.land_ones, Z.shiftr_div_pow2 by lia. reflexivity.
Qed.

Lemma mantissa_field_eq u : mantissa_field u = u mod 2 ^ 23.
Proof.
  unfold mantissa_field. change 0x7FFFFF with (Z.ones 23).
  rewrite Z.land_ones by lia. reflexivity.
Qed.

(** A 32-bit pattern is the sum of its three fields. *)
Lemma fields u :
  is_u32 u ->
  0 <= exponent_field u < 256 /\ 0 <= mantissa_field u < 2 ^ 23 /\
  u = (if u <? 2 ^ 31 then 0 else 2 ^ 31)
      + exponent_field u * 2 ^ 23 + mantissa_field u.
Proof.
  unfold is_u32. intros H.
  rewrite exponent_field_eq, mantissa_field_eq.
  change (2 ^ 23) with 8388608 in *. change (2 ^ 8) with 256 in *.
  change (2 ^ 31) with 2147483648 in *. change (2 ^ 32) with 4294967296 in *.
  destruct (Z.ltb_spec u 2147483648); Z.div_mod_to_equations; lia.
Qed.

Ltac compare_cases :=
  repeat match goal with
  | |- context [PosDef.Pos.compare_cont Eq ?p ?q] =>
      change (PosDef.Pos.compare_cont Eq p q) with (Z.pos p ?= Z.pos q)
  | |- context [?x ?= ?y] => destruct (Z.compare_spec x y); cbn [CompOpp]
  end;
  first [reflexivity | exfalso; lia].

(** A finite float is a zero, or a mantissa [p] at an exponent [ex] that
    satisfy the relation below with the fields. *)
Lemma decode_finite s e m :
  0 <= e < 255 -> 0 <= m < 2 ^ 23 ->
  (e = 0 /\ m = 0 /\ decode s e m = S754_zero s) \/
  (exists p ex, decode s e m = S754_finite s p ex /\ -149 <= ex /\
     (ex + 149) * 2 ^ 23 + Z.pos p = e * 2 ^ 23 + m /\
     Z.pos p < 2 ^ 24 /\ (-149 < ex -> 2 ^ 23 <= Z.pos p)).
Proof.
  intros He Hm. unfold decode.
  change (2 ^ 23) with 8388608 in *. change (2 ^ 24) with 16777216.
  destruct (Z.eqb_spec e 0) as [Z0|N0].
  - destruct m as [|p|p]; [left; auto | right | lia].
    exists p, (-149). repeat split; lia.
  - destruct (Z.eqb_spec e 255) as [|_]; [lia|].
    destruct (m + 8388608) as [|p|p] eqn:P; try lia.
    right. exists p, (e - 150). repeat split; lia.
Qed.

Lemma decode_compare s1 e1 m1 s2 e2 m2 :
  0 <= e1 < 255 -> 0 <= m1 < 2 ^ 23 -> 0 <= e2 < 255 -> 0 <= m2 < 2 ^ 23 ->
  SFcompare (decode s1 e1 m1) (decode s2 e2 m2)
  = Some (skey s1 e1 m1 ?= skey s2 e2 m2).
Proof.
  intros He1 Hm1 He2 Hm2. unfold skey.
  destruct (decode_finite s1 e1 m1 He1 Hm1)
    as [(-> & -> & ->) | (p1 & x1 & -> & L1 & K1 & U1 & N1)];
  destruct (decode_finite s2 e2 m2 He2 Hm2)
    as [(-> & -> & ->) | (p2 & x2 & -> & L2 & K2 & U2 & N2)];
  change (2 ^ 23) with 8388608 in *; change (2 ^ 24) with 16777216 in *;
  destruct s1, s2; cbn [SFcompare CompOpp]; f_equal; compare_cases.
Qed.

Lemma value_compare a b :
  is_u32 a -> is_u32 b -> is_finite a = true -> is_finite b = true ->
  SFcompare (value a) (value b) = Some (smag a ?= smag b).
Proof.
  intros Ha Hb Fa Fb.
  destruct (fields a Ha) as (HEa & HMa & Da).
  destruct (fields b Hb) as (HEb & HMb & Db).
  unfold is_finite in Fa, Fb. apply negb_true_iff, Z.eqb_neq in Fa, Fb.
  unfold value. rewrite decode_compare by lia.
  do 2 f_equal; unfold skey, smag;
    rewrite sign_bit_eq by assumption;
    match goal with |- context [?u <? _] => destruct (Z.ltb_spec u (2 ^ 31)) end;
    cbv [negb]; lia.
Qed.

Lemma flt_smag a b :
  is_u32 a -> is_u32 b -> is_finite a = true -> is_finite b = true ->
  flt a b = (smag a <? smag b).
Proof.
  intros Ha Hb Fa Fb. unfold flt, SFltb.
  rewrite (value_compare a b Ha Hb Fa Fb). unfold Z.ltb.
  destruct (smag a ?= smag b); reflexivity.
Qed.

(** The floats that compare equal to zero are the two signed zeros. *)
Lemma fne_zero x :
  is_u32 x ->
  (fne x f32_pos_zero = false <-> x = f32_pos_zero \/ x = f32_neg_zero).
Proof.
  intros Hx. destruct (fields x Hx) as (HE & HM & D).
  unfold fne, f32_pos_zero, f32_neg_zero. rewrite negb_false_iff.
  change (value 0) with (S754_zero false).
  split.
  - unfold value, decode.
    change (2 ^ 23) with 8388608 in *. change (2 ^ 31) with 2147483648 in *.
    destruct (Z.eqb_spec (exponent_field x) 0) as [Zx|Zx].
    + destruct (mantissa_field x) as [|p|p] eqn:M.
      * intros _. destruct (Z.ltb_spec x 2147483648); lia.
      * unfold SFeqb; cbn [SFcompare]. destruct (sign_bit x); discriminate.
      * lia.
    + destruct (exponent_field x =? 255).
      * destruct (mantissa_field x =? 0); unfold SFeqb; cbn [SFcompare];
          [destruct (sign_bit x)|]; discriminate.
      * destruct (mantissa_field x + 8388608); unfold SFeqb; cbn [SFcompare];
          try destruct (sign_bit x); discriminate.
  - intros [->| ->]; reflexivity.
Qed.

(** The literals denote the intended numbers. *)
Lemma literal_values :
  value f32_0_5 = literal 1 (-1) /\ value f32_1_0 = literal 1 0 /\
  value f32_2_0 = literal 2 0 /\ value f32_3_0 = literal 3 0 /\
  value f32_4_0 = literal 4 0 /\ value f32_5_0 = literal 5 0 /\
  value f32_neg_1_0 = literal (-1) 0 /\ value f32_neg_2_0 = literal (-2) 0 /\
  value f32_neg_3_0 = literal (-3) 0 /\ value f32_neg_5_0 = literal (-5) 0 /\
  value f32_pos_zero = S754_zero false /\ value f32_neg_zero = S754_zero true /\
  value f32_pos_inf = S754_infinity false /\ value f32_neg_inf = S754_infinity true.
Proof. repeat split; vm_compute; reflexivity. Qed.

(** ** [prodsign] *)

Lemma land_top y :
  is_u32 y -> Z.land y 0x80000000 = if y <? 2 ^ 31 then 0 else 2 ^ 31.
Proof.
  intros Hy. pose proof (sign_bit_eq y Hy) as S. unfold sign_bit in S.
  change 0x80000000 with (2 ^ 31).
  apply Z.bits_inj'. intros n Hn.
  rewrite Z.land_spec, Z.pow2_bits_eqb by lia.
  destruct (Z.eqb_spec 31 n) as [<-|Hne].
  - rewrite S. destruct (y <? 2 ^ 31); cbv [negb andb].
    + symmetry. apply Z.bits_0.
    + symmetry. apply Z.pow2_bits_true. lia.
  - rewrite andb_false_r.
    destruct (y <? 2 ^ 31); [rewrite Z.bits_0 | rewrite Z.pow2_bits_false by lia];
      reflexivity.
Qed.

Lemma prodsign_eq x y :
  is_u32 x -> is_u32 y ->
  prodsign x y =
    if y <? 2 ^ 31 then x else if x <? 2 ^ 31 then x + 2 ^ 31 else x - 2 ^ 31.
Proof.
  intros Hx Hy. unfold prodsign, as_float, as_uint32.
  rewrite (land_top y Hy). unfold is_u32 in *.
  destruct (y <? 2 ^ 31); [apply Z.lxor_0_r|].
  destruct (Z.ltb_spec x (2 ^ 31)).
  - apply lxor_top_low. lia.
  - apply lxor_top_high. lia.
Qed.

Lemma magnitude_eq u : Z.land u 0x7FFFFFFF = u mod 2 ^ 31.
Proof. change 0x7FFFFFFF with (Z.ones 31). apply Z.land_ones. lia. Qed.

(** C7. For all floats [x] and [y], [prodsign x y] has the non-sign bits
    of [x] and the sign bit [sign x XOR sign y]; [prodsign(3.0, -2.0)] is
    [-3.0], [prodsign(-5.0, -1.0)] is [5.0], and [prodsign(4.0, 0.0)] has
    the sign of [+0.0]. *)
Theorem prodsign_spec :
  (forall x y, is_u32 x -> is_u32 y ->
     is_u32 (prodsign x y) /\
     Z.land (prodsign x y) 0x7FFFFFFF = Z.land x 0x7FFFFFFF /\
     sign_bit (prodsign x y) = xorb (sign_bit x) (sign_bit y)) /\
  prodsign f32_3_0 f32_neg_2_0 = f32_neg_3_0 /\
  prodsign f32_neg_5_0 f32_neg_1_0 = f32_5_0 /\
  sign_bit (prodsign f32_4_0 f32_pos_zero) = sign_bit f32_pos_zero /\
  prodsign f32_4_0 f32_pos_zero = f32_4_0.
Proof.
  split; [|repeat split; reflexivity].
  intros x y Hx Hy.
  assert (R : is_u32 (prodsign x y)).
  { rewrite prodsign_eq by assumption. unfold is_u32 in *.
    destruct (y <? 2 ^ 31); [lia|]. destruct (Z.ltb_spec x (2 ^ 31)); lia. }
  split; [exact R|]. split.
  - rewrite !magnitude_eq, prodsign_eq by assumption. unfold is_u32 in *.
    destruct (y <? 2 ^ 31); [reflexivity|].
    change (2 ^ 31) with 2147483648 in *.
    destruct (Z.ltb_spec x 2147483648); Z.div_mod_to_equations; lia.
  - rewrite !sign_bit_eq by assumption.
    rewrite prodsign_eq by assumption. unfold is_u32 in *.
    destruct (Z.ltb_spec y (2 ^ 31)); cbv [negb].
    + rewrite xorb_false_r. reflexivity.
    + rewrite xorb_true_r.
      destruct (Z.ltb_spec x (2 ^ 31)); cbv [negb];
        match goal with |- context [?a <? ?b] => destruct (Z.ltb_spec a b) end;
        first [reflexivity | exfalso; lia].
Qed.

Lemma prodsign_spec_witness :
  is_u32 f32_3_0 /\ is_u32 f32_neg_2_0 /\
  Z.land (prodsign f32_3_0 f32_neg_2_0) 0x7FFFFFFF = Z.land f32_3_0 0x7FFFFFFF /\
  sign_bit (prodsign f32_3_0 f32_neg_2_0)
  = xorb (sign_bit f32_3_0) (sign_bit f32_neg_2_0).
Proof.
  assert (Hx : is_u32 f32_3_0) by (unfold is_u32, f32_3_0; lia).
  assert (Hy : is_u32 f32_neg_2_0) by (unfold is_u32, f32_neg_2_0; lia).
  split; [exact Hx|]. split; [exact Hy|].
  exact (proj2 (proj1 prodsign_spec f32_3_0 f32_neg_2_0 Hx Hy)).
Defined.

(** ** Ordered floats: round trips, bijection and order *)

(** C3. For every finite float [x] (signed zeros, subnormals and normal
    numbers of either sign), decoding the ordered key of [x] gives back
    the bits of [x]. *)
Theorem ordered_roundtrip x :
  is_u32 x -> is_finite x = true ->
  ordered_to_float (float_to_ordered x) = x.
Proof. intros Hx _. apply decode_encode. exact Hx. Qed.

Lemma ordered_roundtrip_witness :
  is_u32 f32_neg_zero /\ is_finite f32_neg_zero = true /\
  ordered_to_float (float_to_ordered f32_neg_zero) = f32_neg_zero.
Proof.
  assert (Hx : is_u32 f32_neg_zero) by (unfold is_u32, f32_neg_zero; lia).
  assert (Hf : is_finite f32_neg_zero = true) by reflexivity.
  split; [exact Hx|]. split; [exact Hf|].
  exact (ordered_roundtrip f32_neg_zero Hx Hf).
Defined.

(** C10. For every 32-bit pattern [u], NaNs and infinities included,
    encoding the decoded key gives [u] back; with the other round trip,
    [float_to_ordered] is a bijection of the 32-bit patterns. *)
Theorem float_to_ordered_bijection :
  (forall u, is_u32 u -> float_to_ordered (ordered_to_float u) = u) /\
  (forall f, is_u32 f -> ordered_to_float (float_to_ordered f) = f) /\
  (forall f, is_u32 f -> is_u32 (float_to_ordered f)) /\
  (forall f g, is_u32 f -> is_u32 g ->
     float_to_ordered f = float_to_ordered g -> f = g) /\
  (forall u, is_u32 u -> exists f, is_u32 f /\ float_to_ordered f = u).
Proof.
  split; [exact encode_decode|]. split; [exact decode_encode|].
  split; [exact float_to_ordered_range|]. split.
  - intros f g Hf Hg E.
    rewrite <- (decode_encode f Hf), <- (decode_encode g Hg), E. reflexivity.
  - intros u Hu. exists (ordered_to_float u).
    split; [apply ordered_to_float_range | apply encode_decode]; exact Hu.
Qed.

Lemma float_to_ordered_bijection_witness :
  is_u32 0x7FC00000 /\ is_finite 0x7FC00000 = false /\
  float_to_ordered (ordered_to_float 0x7FC00000) = 0x7FC00000.
Proof.
  assert (Hu : is_u32 0x7FC00000) by (unfold is_u32; lia).
  split; [exact Hu|]. split; [reflexivity|].
  exact (proj1 float_to_ordered_bijection 0x7FC00000 Hu).
Defined.

(** C4 as stated fails on the signed zeros: [-0.0 < +0.0] is false, yet the
    key of [-0.0] is below the key of [+0.0]. *)
Lemma order_iff_fails_on_zeros :
  is_finite f32_neg_zero = true /\ is_finite f32_pos_zero = true /\
  ~ (flt f32_neg_zero f32_pos_zero = true <->
     float_to_ordered f32_neg_zero < float_to_ordered f32_pos_zero).
Proof.
  split; [reflexivity|]. split; [reflexivity|].
  intros [_ H].
  assert (L : float_to_ordered f32_neg_zero < float_to_ordered f32_pos_zero)
    by (vm_compute; reflexivity).
  specialize (H L). vm_compute in H. discriminate H.
Qed.

(** C4, amended. For finite floats [a] and [b], [a < b] holds exactly when
    the key of [a] is below the key of [b] and the pair is not
    [(-0.0, +0.0)]; the keys of [-0.0] and [+0.0] are the adjacent
    [0x7FFFFFFF] and [0x80000000]. *)
Theorem float_to_ordered_order :
  (forall a b,
     is_u32 a -> is_u32 b -> is_finite a = true -> is_finite b = true ->
     (flt a b = true <->
      float_to_ordered a < float_to_ordered b /\
      ~ (a = f32_neg_zero /\ b = f32_pos_zero))) /\
  float_to_ordered f32_neg_zero = 0x7FFFFFFF /\
  float_to_ordered f32_pos_zero = 0x80000000.
Proof.
  split; [|split; vm_compute; reflexivity].
  intros a b Ha Hb Fa Fb.
  rewrite (flt_smag a b Ha Hb Fa Fb), Z.ltb_lt.
  rewrite !float_to_ordered_eq by assumption.
  unfold smag, f32_neg_zero, f32_pos_zero, is_u32 in *.
  change (2 ^ 31) with 2147483648 in *. change (2 ^ 32) with 4294967296 in *.
  destruct (Z.ltb_spec a 2147483648); destruct (Z.ltb_spec b 2147483648); lia.
Qed.

Lemma float_to_ordered_order_witness :
  is_u32 f32_neg_2_0 /\ is_u32 f32_3_0 /\
  is_finite f32_neg_2_0 = true /\ is_finite f32_3_0 = true /\
  (flt f32_neg_2_0 f32_3_0 = true <->
   float_to_ordered f32_neg_2_0 < float_to_ordered f32_3_0 /\
   ~ (f32_neg_2_0 = f32_neg_zero /\ f32_3_0 = f32_pos_zero)).
Proof.
  assert (Ha : is_u32 f32_neg_2_0) by (unfold is_u32, f32_neg_2_0; lia).
  assert (Hb : is_u32 f32_3_0) by (unfold is_u32, f32_3_0; lia).
  assert (Fa : is_finite f32_neg_2_0 = true) by reflexivity.
  assert (Fb : is_finite f32_3_0 = true) by reflexivity.
  repeat (split; [assumption|]).
  exact (proj1 float_to_ordered_order f32_neg_2_0 f32_3_0 Ha Hb Fa Fb).
Defined.

(** ** [safe_rcp] *)

Lemma copysign_inf_zero x :
  x = f32_pos_zero \/ x = f32_neg_zero ->
  copysign (as_float 0x7F800000) x = Z.lor 0x7F800000 (Z.land x 0x80000000) /\
  value (copysign (as_float 0x7F800000) x) = S754_infinity (sign_bit x).
Proof. intros [->| ->]; split; reflexivity. Qed.

(** C6. [safe_rcp x] is [1.0f / x] for every float [x] that is not a zero
    ([safe_rcp(2.0)] is [0.5]); for a zero it is the infinity with the
    sign of [x], of pattern [0x7f800000] with the sign bit of [x], and not
    a NaN: [+inf] at [+0.0] and [-inf] at [-0.0]. *)
Theorem safe_rcp_spec :
  (forall x, is_u32 x -> x <> f32_pos_zero -> x <> f32_neg_zero ->
     safe_rcp x = fdiv f32_1_0 x) /\
  safe_rcp f32_2_0 = value f32_0_5 /\
  (forall x, is_u32 x -> x = f32_pos_zero \/ x = f32_neg_zero ->
     safe_rcp x = S754_infinity (sign_bit x) /\
     safe_rcp x = value (Z.lor 0x7F800000 (Z.land x 0x80000000)) /\
     is_nan (safe_rcp x) = false) /\
  safe_rcp f32_pos_zero = value f32_pos_inf /\
  safe_rcp f32_neg_zero = value f32_neg_inf.
Proof.
  split; [|split; [vm_compute; reflexivity|split; [|split; vm_compute; reflexivity]]].
  - intros x Hx Np Nn. unfold safe_rcp.
    destruct (fne x f32_pos_zero) eqn:E; [reflexivity|].
    apply (fne_zero x Hx) in E. tauto.
  - intros x Hx Z0. unfold safe_rcp.
    rewrite (proj2 (fne_zero x Hx) Z0).
    destruct (copysign_inf_zero x Z0) as [B V].
    rewrite <- B, V. repeat split; reflexivity.
Qed.

Lemma safe_rcp_spec_witness :
  is_u32 f32_3_0 /\ f32_3_0 <> f32_pos_zero /\ f32_3_0 <> f32_neg_zero /\
  safe_rcp f32_3_0 = fdiv f32_1_0 f32_3_0.
Proof.
  assert (Hx : is_u32 f32_3_0) by (unfold is_u32, f32_3_0; lia).
  assert (Np : f32_3_0 <> f32_pos_zero) by discriminate.
  assert (Nn : f32_3_0 <> f32_neg_zero) by discriminate.
  repeat (split; [assumption|]).
  exact (proj1 safe_rcp_spec f32_3_0 Hx Np Nn).
Defined.

(** ** [clamp] *)

(** C8. For every totally ordered type and all [v], [lo <= hi], clamping
    twice is clamping once. *)
Theorem clamp_idempotent {T : Type} `{Cmp.Ordered T} (v lo hi : T) :
  Cmp.le lo hi = true ->
  Cmp.clamp (Cmp.clamp v lo hi) lo hi = Cmp.clamp v lo hi.
Proof.
  unfold Cmp.le, Cmp.clamp, Cmp.min, Cmp.max, Cmp.gt. intros Hle.
  apply negb_true_iff in Hle.
  destruct (Cmp.lt v lo) eqn:E1.
  - rewrite Hle, Cmp.lt_irrefl, Hle. reflexivity.
  - destruct (Cmp.lt hi v) eqn:E2.
    + rewrite Hle, Cmp.lt_irrefl. reflexivity.
    + rewrite E1, E2. reflexivity.
Qed.

Lemma clamp_idempotent_witness :
  Cmp.le 0 5 = true /\ Cmp.clamp (Cmp.clamp 7 0 5) 0 5 = Cmp.clamp 7 0 5.
Proof.
  split; [reflexivity|]. exact (clamp_idempotent 7 0 5 eq_refl).
Defined.

(** ** [icbrt] *)

Lemma u32_small z : 0 <= z < 2 ^ 32 -> u32 z = z.
Proof. intros H. apply Z.mod_small. exact H. Qed.

Lemma i32_small z : 0 <= z < 2 ^ 31 -> i32 z = z.
Proof.
  intros H. unfold i32, to_signed, to_unsigned.
  change (2 ^ (32 - 1)) with (2 ^ 31).
  rewrite Z.mod_small by lia.
  destruct (Z.ltb_spec z (2 ^ 31)); lia.
Qed.

Lemma i32_small_neg z : - 2 ^ 31 <= z < 0 -> i32 z = z.
Proof.
  intros H. unfold i32, to_signed, to_unsigned.
  change (2 ^ (32 - 1)) with (2 ^ 31).
  replace (z mod 2 ^ 32) with (z + 2 ^ 32).
  - destruct (Z.ltb_spec (z + 2 ^ 32) (2 ^ 31)); lia.
  - apply (Z.mod_unique z (2 ^ 32) (-1)); lia.
Qed.

Lemma cube_small y n : 0 <= y -> y ^ 3 <= n -> n < 2 ^ 31 -> y <= 1290.
Proof.
  intros Hy Hc Hn. replace (y ^ 3) with (y * y * y) in Hc by ring.
  change (2 ^ 31) with 2147483648 in Hn. nia.
Qed.

Lemma body_bounds x0 Q x y :
  0 <= x0 < 2 ^ 31 -> 1 <= Q <= 2 ^ 30 -> (2 ^ 27 < Q -> 2 ^ 30 <= Q) ->
  cube_inv x0 (8 * Q) x y ->
  0 <= y <= 1290 /\ 0 <= (3 * (2 * y) * (2 * y + 1) + 1) * Q < 2 ^ 32.
Proof.
  intros Hx0 HQ Hpow (Hy & Hx & Ex & Ux).
  replace (y ^ 3) with (y * y * y) in * by ring.
  change (2 ^ 27) with 134217728 in *. change (2 ^ 30) with 1073741824 in *.
  change (2 ^ 31) with 2147483648 in *. change (2 ^ 32) with 4294967296.
  assert (Hc : y * y * y * (8 * Q) <= x0) by lia.
  assert (Y : y <= 1290) by nia.
  split; [lia|]. split; [nia|].
  destruct (Z.eq_dec y 0) as [->|Ny]; [lia|].
  assert (Q <= 134217728) by nia.
  destruct (Z.eq_dec y 1) as [->|Ny1]; [lia|].
  assert (C8 : 8 * (3 * (2 * y) * (2 * y + 1) + 1) <= 61 * (y * y * y)) by nia.
  assert (C8Q : 8 * (3 * (2 * y) * (2 * y + 1) + 1) * Q <= 61 * (y * y * y) * Q)
    by (apply Z.mul_le_mono_nonneg_r; lia).
  lia.
Qed.

(** Under the invariant no operation of the body wraps around. *)
Lemma icbrt_body_eq x0 s x y :
  0 <= x0 < 2 ^ 31 -> 0 <= s <= 30 -> (27 < s -> s = 30) ->
  cube_inv x0 (2 ^ (s + 3)) x y ->
  icbrt_body s x y =
    let b := (3 * (2 * y) * (2 * y + 1) + 1) * 2 ^ s in
    if x >=? b then (x - b, 2 * y + 1) else (x, 2 * y).
Proof.
  intros Hx0 Hs Hs3 Inv.
  assert (HQ : 1 <= 2 ^ s <= 2 ^ 30).
  { split; [|apply Z.pow_le_mono_r; lia].
    change 1 with (2 ^ 0). apply Z.pow_le_mono_r; lia. }
  assert (Hpow : 2 ^ 27 < 2 ^ s -> 2 ^ 30 <= 2 ^ s).
  { intros L. apply Z.pow_lt_mono_r_iff in L; [|lia|lia].
    rewrite (Hs3 L). lia. }
  replace (2 ^ (s + 3)) with (8 * 2 ^ s) in Inv
    by (rewrite Z.pow_add_r by lia; change (2 ^ 3) with 8; ring).
  destruct (body_bounds x0 (2 ^ s) x y Hx0 HQ Hpow Inv) as (Hy & Hb).
  destruct Inv as (_ & Hx & Ex & _).
  assert (Hxu : 0 <= x < 2 ^ 31).
  { split; [exact Hx|]. assert (0 <= y ^ 3 * (8 * 2 ^ s)); [|lia].
    apply Z.mul_nonneg_nonneg; [apply Z.pow_nonneg|]; lia. }
  unfold icbrt_body. cbv zeta.
  change (2 ^ 31) with 2147483648 in *. change (2 ^ 32) with 4294967296 in *.
  rewrite (u32_small (2 * y)) by (change (2 ^ 32) with 4294967296; lia).
  rewrite (u32_small (3 * (2 * y))) by (change (2 ^ 32) with 4294967296; lia).
  rewrite (u32_small (2 * y + 1)) by (change (2 ^ 32) with 4294967296; lia).
  rewrite (u32_small (3 * (2 * y) * (2 * y + 1)))
    by (change (2 ^ 32) with 4294967296; nia).
  rewrite (u32_small (3 * (2 * y) * (2 * y + 1) + 1))
    by (change (2 ^ 32) with 4294967296; nia).
  rewrite Z.shiftl_mul_pow2 by lia.
  rewrite (u32_small ((3 * (2 * y) * (2 * y + 1) + 1) * 2 ^ s))
    by (change (2 ^ 32) with 4294967296; lia).
  rewrite (u32_small x) by (change (2 ^ 32) with 4294967296; lia).
  destruct (Z.geb_spec x ((3 * (2 * y) * (2 * y + 1) + 1) * 2 ^ s)) as [G|L];
    [|reflexivity].
  rewrite u32_small by (change (2 ^ 32) with 4294967296; lia).
  rewrite i32_small by (change (2 ^ 31) with 2147483648; lia).
  reflexivity.
Qed.

(** One iteration takes the invariant at [2^(s+3)] to the invariant at
    [2^s]. *)
Lemma icbrt_body_inv x0 s x y :
  0 <= x0 < 2 ^ 31 -> 0 <= s <= 30 -> (27 < s -> s = 30) ->
  cube_inv x0 (2 ^ (s + 3)) x y ->
  cube_inv x0 (2 ^ s) (fst (icbrt_body s x y)) (snd (icbrt_body s x y)).
Proof.
  intros Hx0 Hs Hs3 Inv.
  rewrite (icbrt_body_eq x0 s x y Hx0 Hs Hs3 Inv). cbv zeta.
  replace (2 ^ (s + 3)) with (8 * 2 ^ s) in Inv
    by (rewrite Z.pow_add_r by lia; change (2 ^ 3) with 8; ring).
  assert (HQ : 0 < 2 ^ s) by (apply Z.pow_pos_nonneg; lia).
  destruct Inv as (Hy & Hx & Ex & Ux). unfold cube_inv.
  set (Q := 2 ^ s) in *.
  replace (y ^ 3 * (8 * Q)) with (8 * (y * y * y * Q)) in * by ring.
  replace ((y + 1) ^ 3 * (8 * Q))
    with (8 * (y * y * y * Q) + 24 * (y * y * Q) + 24 * (y * Q) + 8 * Q) in * by ring.
  replace ((3 * (2 * y) * (2 * y + 1) + 1) * Q)
    with (12 * (y * y * Q) + 6 * (y * Q) + Q) by ring.
  destruct (Z.geb_spec x (12 * (y * y * Q) + 6 * (y * Q) + Q)) as [G|L];
    cbn [fst snd].
  - replace ((2 * y + 1) ^ 3 * Q)
      with (8 * (y * y * y * Q) + 12 * (y * y * Q) + 6 * (y * Q) + Q) by ring.
    replace ((2 * y + 1 + 1) ^ 3 * Q)
      with (8 * (y * y * y * Q) + 24 * (y * y * Q) + 24 * (y * Q) + 8 * Q) by ring.
    lia.
  - replace ((2 * y) ^ 3 * Q) with (8 * (y * y * y * Q)) by ring.
    replace ((2 * y + 1) ^ 3 * Q)
      with (8 * (y * y * y * Q) + 12 * (y * y * Q) + 6 * (y * Q) + Q) by ring.
    lia.
Qed.

Lemma icbrt_loop_spec x0 :
  0 <= x0 < 2 ^ 31 ->
  forall (n fuel : nat) (s x y : Z),
    (n <= 11)%nat -> (n < fuel)%nat -> s = 3 * Z.of_nat n - 3 ->
    cube_inv x0 (2 ^ (s + 3)) x y ->
    exists r, icbrt_loop fuel s x y = Some r /\ r ^ 3 <= x0 < (r + 1) ^ 3.
Proof.
  intros Hx0. induction n as [|n IH]; intros fuel s x y Hn Hf Es Inv.
  - destruct fuel as [|fuel]; [lia|]. subst s. cbn [icbrt_loop].
    change (3 * Z.of_nat 0 - 3 >=? 0) with false. cbv iota.
    change (2 ^ (3 * Z.of_nat 0 - 3 + 3)) with 1 in Inv.
    destruct Inv as (Hy & Hx & Ex & Ux). rewrite Z.mul_1_r in *.
    assert (y <= 1290) by (apply (cube_small y x0); lia).
    exists y. split; [|lia].
    rewrite i32_small by (change (2 ^ 31) with 2147483648; lia). reflexivity.
  - destruct fuel as [|fuel]; [lia|].
    assert (Hs : 0 <= s <= 30) by lia.
    assert (Hs3 : 27 < s -> s = 30) by lia.
    cbn [icbrt_loop].
    destruct (Z.geb_spec s 0) as [_|]; [|lia].
    pose proof (icbrt_body_inv x0 s x y Hx0 Hs Hs3 Inv) as Inv'.
    destruct (icbrt_body s x y) as [x' y']. cbn [fst snd] in Inv'.
    assert (Ei : i32 (s - 3) = s - 3).
    { destruct (Z.eq_dec s 0) as [->|].
      - apply i32_small_neg. change (2 ^ 31) with 2147483648. lia.
      - apply i32_small. change (2 ^ 31) with 2147483648. lia. }
    rewrite Ei. apply (IH fuel (s - 3) x' y'); [lia|lia|lia|].
    replace (s - 3 + 3) with s by lia. exact Inv'.
Qed.

(** C5. For every [x] with [0 <= x < 2^31], [icbrt x] returns the [y] such
    that [y^3 <= x < (y+1)^3]; it is 0 at 0, 1 at 7, 2 at 8 and 26, and 3
    at 27. *)
Theorem icbrt_exact :
  (forall x, 0 <= x < 2 ^ 31 ->
     exists y, icbrt x = Some y /\ y ^ 3 <= x < (y + 1) ^ 3) /\
  icbrt 0 = Some 0 /\ icbrt 7 = Some 1 /\ icbrt 8 = Some 2 /\
  icbrt 26 = Some 2 /\ icbrt 27 = Some 3.
Proof.
  split; [|repeat split; vm_compute; reflexivity].
  intros x Hx. unfold icbrt.
  apply (icbrt_loop_spec x Hx 11%nat 12%nat 30 x 0); [lia|lia|reflexivity|].
  unfold cube_inv. change (2 ^ (30 + 3)) with 8589934592.
  change (2 ^ 31) with 2147483648 in Hx. simpl. lia.
Qed.

Lemma icbrt_exact_witness :
  0 <= 1000 < 2 ^ 31 /\
  exists y, icbrt 1000 = Some y /\ y ^ 3 <= 1000 < (y + 1) ^ 3.
Proof.
  assert (Hx : 0 <= 1000 < 2 ^ 31) by lia.
  split; [exact Hx|]. exact (proj1 icbrt_exact 1000 Hx).
Defined.

(** ** [Log2] *)

Lemma size_t_small z : 0 <= z < 2 ^ 64 -> size_t z = z.
Proof. intros H. apply Z.mod_small. exact H. Qed.

Lemma log2_half N : 2 <= N -> Z.log2 N = Z.log2 (N / 2) + 1.
Proof.
  intros H. pose proof (Z.div_mod N 2 ltac:(lia)) as E.
  pose proof (Z.mod_pos_bound N 2 ltac:(lia)) as B.
  assert (Hq : 0 < N / 2) by (apply Z.div_str_pos; lia).
  destruct (Z.eq_dec (N mod 2) 0) as [R|R].
  - rewrite E at 1. rewrite R, Z.add_0_r, Z.log2_double by exact Hq. lia.
  - rewrite E at 1. replace (N mod 2) with 1 by lia.
    rewrite Z.log2_succ_double by exact Hq. lia.
Qed.

(** The instantiation of [Log2<N, I>] ends at depth [log2 N + 1] with the
    value [I + log2 N]. *)
Lemma Log2_inst_spec depth :
  forall N I, 1 <= N < 2 ^ 64 -> 0 <= I -> I + Z.log2 N < 2 ^ 64 ->
    (Z.to_nat (Z.log2 N) < depth)%nat ->
    Log2_inst depth N I = Some (I + Z.log2 N).
Proof.
  induction depth as [|depth IH]; intros N I HN HI HB HD; [lia|].
  cbn [Log2_inst]. destruct (Z.eqb_spec N 1) as [->|N1].
  - f_equal. change (Z.log2 1) with 0. lia.
  - assert (H2 : 2 <= N) by lia.
    pose proof (log2_half N H2) as E.
    pose proof (Z.log2_nonneg (N / 2)) as P.
    assert (Hh : 1 <= N / 2 < 2 ^ 64).
    { change (2 ^ 64) with 18446744073709551616 in *.
      Z.div_mod_to_equations; lia. }
    rewrite (size_t_small (N / 2)) by lia.
    rewrite (size_t_small (I + 1)) by lia.
    rewrite IH by lia. f_equal. lia.
Qed.

Lemma Log2_spec N : 1 <= N < 2 ^ 64 -> Log2 N = Some (Z.log2 N).
Proof.
  intros HN. unfold Log2.
  assert (L : Z.log2 N < 64) by (apply Z.log2_lt_pow2; lia).
  pose proof (Z.log2_nonneg N).
  rewrite Log2_inst_spec; [reflexivity | exact HN | lia | | lia].
  change (2 ^ 64) with 18446744073709551616. lia.
Qed.

(** [Log2<0>] has no value: the instantiation never reaches [Log2<1, I>]. *)
Lemma Log2_inst_zero depth : forall I, Log2_inst depth 0 I = None.
Proof.
  induction depth as [|depth IH]; intros I; [reflexivity|].
  cbn [Log2_inst]. change (0 =? 1) with false. cbv iota.
  change (size_t (0 / 2)) with 0. apply IH.
Qed.

(** ** [ilog2] *)

Lemma all_ones w : 0 <= w -> to_unsigned w (-1) = Z.ones w.
Proof.
  intros Hw. unfold to_unsigned. rewrite Z.ones_equiv.
  assert (0 < 2 ^ w) by (apply Z.pow_pos_nonneg; lia).
  symmetry. apply (Z.mod_unique (-1) (2 ^ w) (-1)); lia.
Qed.

(** [t & (all << m)] keeps the bits of [t] from position [m] up. *)
Lemma land_mask w t m :
  0 <= w -> 0 <= t < 2 ^ w -> 0 <= m ->
  Z.land t (to_unsigned w (Z.shiftl (Z.ones w) m)) = Z.shiftl (Z.shiftr t m) m.
Proof.
  intros Hw Ht Hm. unfold to_unsigned.
  apply Z.bits_inj'. intros n Hn.
  rewrite Z.land_spec, (Z.shiftl_spec (Z.shiftr t m)) by exact Hn.
  destruct (Z_lt_le_dec n w) as [Lw|Gw].
  - rewrite Z.mod_pow2_bits_low by lia.
    rewrite Z.shiftl_spec by exact Hn.
    rewrite Z.testbit_ones by exact Hw.
    destruct (Z_lt_le_dec n m) as [Lm|Gm].
    + rewrite (Z.testbit_neg_r _ (n - m)) by lia.
      replace (0 <=? n - m) with false by (symmetry; apply Z.leb_gt; lia).
      apply andb_false_r.
    + rewrite Z.shiftr_spec by lia.
      replace (0 <=? n - m) with true by (symmetry; apply Z.leb_le; lia).
      replace (n - m <? w) with true by (symmetry; apply Z.ltb_lt; lia).
      replace (n - m + m) with n by lia. apply andb_true_r.
  - rewrite Z.mod_pow2_bits_high by lia. rewrite andb_false_r.
    destruct (Z_lt_le_dec n m) as [Lm|Gm].
    + rewrite Z.testbit_neg_r by lia. reflexivity.
    + rewrite Z.shiftr_spec by lia. replace (n - m + m) with n by lia.
      symmetry. apply (testbit_above t w n); lia.
Qed.

Lemma bit_length_lt t m :
  0 <= t -> 0 <= m -> (t < 2 ^ m <-> bit_length t <= m).
Proof.
  intros Ht Hm. unfold bit_length.
  destruct (Z.eqb_spec t 0) as [->|Nt].
  - split; intros _; [lia | apply Z.pow_pos_nonneg; lia].
  - rewrite Z.log2_lt_pow2 by lia. lia.
Qed.

(** The test of the loop succeeds exactly when [t] has a bit at position
    [m] or above. *)
Lemma mask_test w t m :
  0 < w -> 0 <= t < 2 ^ w -> 0 <= m <= w ->
  negb (Z.land t (to_unsigned w (Z.shiftl (to_unsigned w (-1)) (to_unsigned w m))) =? 0)
  = (m <? bit_length t).
Proof.
  intros Hw Ht Hm.
  assert (Wlt : w < 2 ^ w) by (apply Z.pow_gt_lin_r; lia).
  rewrite all_ones by lia.
  rewrite (Z.mod_small m (2 ^ w) ltac:(lia) : to_unsigned w m = m).
  rewrite land_mask by lia.
  rewrite Z.shiftl_mul_pow2, Z.shiftr_div_pow2 by lia.
  assert (P : 0 < 2 ^ m) by (apply Z.pow_pos_nonneg; lia).
  pose proof (bit_length_lt t m ltac:(lia) ltac:(lia)) as B.
  destruct (Z.ltb_spec m (bit_length t)) as [L|G].
  - apply negb_true_iff, Z.eqb_neq. intros E.
    assert (t / 2 ^ m = 0) as D by nia.
    apply Z.div_small_iff in D; lia.
  - apply negb_false_iff, Z.eqb_eq.
    rewrite Z.div_small by lia. reflexivity.
Qed.

Section Ilog2Loop.

Variables w t : Z.
Hypothesis Hw : 0 < w <= 64.
Hypothesis Ht : 0 <= t < 2 ^ w.

(** Once the interval is shorter than [2^n], [n] iterations find the bit
    length. *)
Lemma ilog2_loop_narrow (n : nat) :
  forall a b, 0 <= a <= bit_length t -> bit_length t <= b <= w ->
    b - a < 2 ^ Z.of_nat n ->
    ilog2_loop n w t (to_unsigned w (-1)) a b = bit_length t.
Proof.
  induction n as [|n IH]; intros a b Ha Hb Hg.
  - change (2 ^ Z.of_nat 0) with 1 in Hg. cbn [ilog2_loop]. lia.
  - cbn [ilog2_loop].
    rewrite Nat2Z.inj_succ, Z.pow_succ_r in Hg by lia.
    rewrite (size_t_small a) by (change (2 ^ 64) with 18446744073709551616; lia).
    rewrite (size_t_small (a + b))
      by (change (2 ^ 64) with 18446744073709551616; lia).
    assert (Hm : a <= (a + b) / 2 <= b) by (Z.div_mod_to_equations; lia).
    rewrite mask_test by lia.
    destruct (Z.ltb_spec ((a + b) / 2) (bit_length t)) as [L|G].
    + rewrite size_t_small by (change (2 ^ 64) with 18446744073709551616; lia).
      rewrite i32_small by (change (2 ^ 31) with 2147483648; lia).
      apply IH; [lia | lia | Z.div_mod_to_equations; lia].
    + apply IH; [lia | lia | Z.div_mod_to_equations; lia].
Qed.

(** From the interval [0, 2^n], [n] iterations find the bit length of
    every [t >= 2], and stop at 0 on [t < 2]. *)
Lemma ilog2_loop_spec (n : nat) :
  bit_length t <= 2 ^ Z.of_nat n -> 2 ^ Z.of_nat n <= w ->
  ilog2_loop n w t (to_unsigned w (-1)) 0 (2 ^ Z.of_nat n) = if t <? 2 then 0 else bit_length t.
Proof.
  induction n as [|n IH]; intros HL HW.
  - cbn [ilog2_loop]. change (2 ^ Z.of_nat 0) with 1 in HL.
    destruct (Z.ltb_spec t 2) as [_|G]; [reflexivity|].
    apply (bit_length_lt t 1) in HL; lia.
  - cbn [ilog2_loop].
    rewrite Nat2Z.inj_succ, Z.pow_succ_r in * by lia.
    assert (P : 1 <= 2 ^ Z.of_nat n).
    { change 1 with (2 ^ 0). apply Z.pow_le_mono_r; lia. }
    change (size_t 0) with 0. rewrite Z.add_0_l.
    rewrite size_t_small by (change (2 ^ 64) with 18446744073709551616; lia).
    replace (2 * 2 ^ Z.of_nat n / 2) with (2 ^ Z.of_nat n)
      by (rewrite Z.mul_comm, Z.div_mul; lia).
    rewrite mask_test by lia.
    pose proof (Z.log2_nonneg t).
    destruct (Z.ltb_spec (2 ^ Z.of_nat n) (bit_length t)) as [L|G].
    + rewrite size_t_small by (change (2 ^ 64) with 18446744073709551616; lia).
      rewrite i32_small by (change (2 ^ 31) with 2147483648; lia).
      rewrite ilog2_loop_narrow by lia.
      destruct (Z.ltb_spec t 2) as [S|_]; [|reflexivity].
      unfold bit_length in L. destruct (Z.eqb_spec t 0); [lia|].
      assert (t = 1) as -> by lia. change (Z.log2 1) with 0 in L. lia.
    + apply IH; lia.
Qed.

End Ilog2Loop.

Lemma Log2_bits T :
  exists n : nat, Log2 (bits T) = Some (Z.of_nat n) /\ bits T = 2 ^ Z.of_nat n.
Proof.
  destruct T; [exists 3%nat | exists 4%nat | exists 5%nat | exists 6%nat];
    split; reflexivity.
Qed.

Lemma bits_range T : 0 < bits T <= 64.
Proof. destruct T; unfold bits, sizeof; lia. Qed.

(** [ilog2] in closed form: the bit length of [t], except that 1 gives 0. *)
Lemma ilog2_eq T t :
  0 <= t < 2 ^ bits T ->
  ilog2 T t = Some (if t <? 2 then 0 else Z.log2 t + 1).
Proof.
  intros Ht. unfold ilog2.
  destruct (Log2_bits T) as (n & -> & E). rewrite Nat2Z.id. f_equal.
  pose proof (bits_range T) as Hw.
  rewrite E at 3.
  rewrite (ilog2_loop_spec (bits T) t Hw Ht n).
  - unfold bit_length. destruct (Z.ltb_spec t 2); [reflexivity|].
    destruct (Z.eqb_spec t 0); [lia | reflexivity].
  - rewrite <- E. apply bit_length_lt; lia.
  - lia.
Qed.

(** With [t = 0] no test succeeds and [a] is never advanced. *)
Lemma ilog2_loop_zero n : forall w all a b, ilog2_loop n w 0 all a b = a.
Proof.
  induction n as [|n IH]; intros w all a b; [reflexivity|].
  cbn [ilog2_loop]. rewrite Z.land_0_l. change (negb (0 =? 0)) with false.
  cbv iota. apply IH.
Qed.

(** C9. [ilog2(0)] is 0 at every unsigned width. *)
Theorem ilog2_zero : forall T, ilog2 T 0 = Some 0.
Proof.
  intros T. unfold ilog2. destruct (Log2_bits T) as (n & -> & _).
  rewrite ilog2_loop_zero. reflexivity.
Qed.

(** C1. [ilog2] should return the smallest [a] with [(1 << a) >= t]; at
    [t = 2] that is 1 and at [t = 1024] it is 10, but the code returns 2
    and 11: one too many at the powers of two from 2 on. *)
Theorem ilog2_defect_at_powers :
  ilog2 UInt32 2 = Some 2 /\ smallest_exponent 2 1 /\
  ilog2 UInt32 1024 = Some 11 /\ smallest_exponent 1024 10.
Proof.
  assert (S : forall k, 0 <= k -> smallest_exponent (2 ^ k) k).
  { intros k Hk. split; [exact Hk|]. split; [lia|]. intros a' Ha' U.
    destruct (Z_lt_le_dec a' k) as [L|]; [exfalso|assumption].
    assert (2 ^ a' < 2 ^ k) by (apply Z.pow_lt_mono_r; lia). lia. }
  split; [vm_compute; reflexivity|]. split; [exact (S 1 ltac:(lia))|].
  split; [vm_compute; reflexivity|]. exact (S 10 ltac:(lia)).
Qed.

(** The result of [ilog2] at 2 is not the smallest exponent, nor is it at
    1024. *)
Lemma ilog2_not_smallest :
  ilog2 UInt32 2 = Some 2 /\ ~ smallest_exponent 2 2 /\
  ilog2 UInt32 2 <> Some 1 /\ ilog2 UInt32 1024 <> Some 10.
Proof.
  split; [vm_compute; reflexivity|]. split.
  - intros (_ & _ & H). specialize (H 1 ltac:(lia) ltac:(simpl; lia)). lia.
  - split; vm_compute; discriminate.
Qed.

(** What the code computes as it stands: for every [t > 0] of the width,
    [ilog2 t] is an [a] with [(1 << a) >= t]; it is the smallest such [a]
    when [t] is 1 or is not a power of two, and it is [k + 1] when
    [t = 2^k] with [k >= 1]. *)
Theorem ilog2_upper_bound :
  (forall T t, 0 < t < 2 ^ bits T ->
     exists a, ilog2 T t = Some a /\ t <= 2 ^ a /\
       ((t = 1 \/ forall k, 0 <= k -> t <> 2 ^ k) -> smallest_exponent t a) /\
       (forall k, 1 <= k -> t = 2 ^ k -> a = k + 1)) /\
  ilog2 UInt32 1 = Some 0 /\ ilog2 UInt32 2 = Some 2 /\
  ilog2 UInt32 3 = Some 2 /\ ilog2 UInt32 1024 = Some 11 /\
  ilog2 UInt32 1025 = Some 11.
Proof.
  split; [|repeat split; vm_compute; reflexivity].
  intros T t Ht. rewrite ilog2_eq by lia.
  eexists. split; [reflexivity|].
  destruct (Z.ltb_spec t 2) as [S|G].
  - assert (t = 1) as -> by lia. split; [simpl; lia|]. split.
    + intros _. split; [lia|]. split; [simpl; lia|]. intros; lia.
    + intros k Hk E. exfalso.
      assert (2 ^ 1 <= 2 ^ k) by (apply Z.pow_le_mono_r; lia).
      change (2 ^ 1) with 2 in *. lia.
  - destruct (Z.log2_spec t ltac:(lia)) as [Lo Hi].
    pose proof (Z.log2_nonneg t) as Nn.
    replace (Z.succ (Z.log2 t)) with (Z.log2 t + 1) in Hi by lia.
    split; [lia|]. split.
    + intros [E1|Np]; [lia|].
      split; [lia|]. split; [lia|]. intros a' Ha' Ua'.
      destruct (Z_lt_le_dec (Z.log2 t) a') as [|Le]; [lia|]. exfalso.
      assert (2 ^ a' <= 2 ^ Z.log2 t) by (apply Z.pow_le_mono_r; lia).
      apply (Np (Z.log2 t) Nn). lia.
    + intros k Hk ->. rewrite Z.log2_pow2 by lia. reflexivity.
Qed.

Lemma ilog2_upper_bound_witness :
  0 < 5 < 2 ^ bits UInt8 /\
  exists a, ilog2 UInt8 5 = Some a /\ 5 <= 2 ^ a /\
    ((5 = 1 \/ forall k, 0 <= k -> 5 <> 2 ^ k) -> smallest_exponent 5 a) /\
    (forall k, 1 <= k -> 5 = 2 ^ k -> a = k + 1).
Proof.
  assert (Ht : 0 < 5 < 2 ^ bits UInt8) by (unfold bits, sizeof; simpl; lia).
  split; [exact Ht|]. exact (proj1 ilog2_upper_bound UInt8 5 Ht).
Defined.

(** C2. [Log2<N>::Value] and [ilog2(N)] should agree at every power of
    two; [Log2] is exact, 1 at 2 and 10 at 1024, but [ilog2] returns 2 and
    11 there. *)
Theorem Log2_ilog2_defect_at_powers :
  Log2 2 = Some 1 /\ ilog2 UInt32 2 = Some 2 /\
  Log2 1024 = Some 10 /\ ilog2 UInt32 1024 = Some 11.
Proof. repeat split; vm_compute; reflexivity. Qed.

(** The two values differ at [N = 2]. *)
Lemma Log2_ilog2_differ :
  Log2 2 = Some 1 /\ ilog2 UInt32 2 = Some 2 /\ Log2 2 <> ilog2 UInt32 2.
Proof.
  split; [vm_compute; reflexivity|]. split; [vm_compute; reflexivity|].
  vm_compute. discriminate.
Qed.

(** What the code computes as it stands: for a power of two [N = 2^k] of
    the width, [Log2<N>::Value] is [k]; [ilog2(N)] is also 0 at [N = 1],
    and is [k + 1] at every [N = 2^k] with [k >= 1]. *)
Theorem Log2_ilog2_powers T k :
  0 <= k < bits T ->
  Log2 (2 ^ k) = Some k /\
  ilog2 T (2 ^ k) = Some (if k =? 0 then 0 else k + 1).
Proof.
  intros Hk. pose proof (bits_range T) as Hw.
  assert (P : 1 <= 2 ^ k).
  { change 1 with (2 ^ 0). apply Z.pow_le_mono_r; lia. }
  assert (U : 2 ^ k < 2 ^ bits T) by (apply Z.pow_lt_mono_r; lia).
  assert (U64 : 2 ^ bits T <= 2 ^ 64) by (apply Z.pow_le_mono_r; lia).
  split.
  - rewrite Log2_spec by lia. rewrite Z.log2_pow2 by lia. reflexivity.
  - rewrite ilog2_eq by lia. rewrite Z.log2_pow2 by lia. f_equal.
    destruct (Z.eqb_spec k 0) as [->|Nk]; [reflexivity|].
    assert (2 ^ 1 <= 2 ^ k) by (apply Z.pow_le_mono_r; lia).
    change (2 ^ 1) with 2 in *.
    destruct (Z.ltb_spec (2 ^ k) 2); [lia | reflexivity].
Qed.

Lemma Log2_ilog2_powers_witness :
  0 <= 10 < bits UInt32 /\
  Log2 (2 ^ 10) = Some 10 /\
  ilog2 UInt32 (2 ^ 10) = Some (if 10 =? 0 then 0 else 10 + 1).
Proof.
  assert (Hk : 0 <= 10 < bits UInt32) by (unfold bits, sizeof; lia).
  split; [exact Hk|]. exact (Log2_ilog2_powers UInt32 10 Hk).
Defined.

(** * Further properties *)

(** ** [round_div] *)

Lemma i32_id z : is_i32 z -> i32 z = z.
Proof.
  unfold is_i32. intros H. destruct (Z_lt_le_dec z 0).
  - apply i32_small_neg. lia.
  - apply i32_small. lia.
Qed.

(** X1. For [i >= 0] and [j > 0], [round_div i j] is the quotient rounded up:
    the least [r] with [r * j >= i]. *)
Theorem round_div_ceiling i j :
  0 <= i < 2 ^ 31 -> 0 < j < 2 ^ 31 ->
  exists r, round_div i j = Some r /\ i <= r * j < i + j.
Proof.
  intros Hi Hj. unfold round_div.
  destruct (Z.eqb_spec j 0) as [|_]; [lia|]. cbn [orb].
  destruct (Z.eqb_spec i (- 2 ^ 31)) as [|_]; [lia|]. cbn [andb].
  rewrite Z.quot_div_nonneg, Z.rem_mod_nonneg by lia.
  pose proof (Z.div_mod i j ltac:(lia)) as E.
  pose proof (Z.mod_pos_bound i j ltac:(lia)) as B.
  assert (Q : 0 <= i / j <= i).
  { split; [apply Z.div_pos; lia|]. apply Z.div_le_upper_bound; nia. }
  eexists. split; [reflexivity|].
  change (2 ^ 31) with 2147483648 in *.
  destruct (Z.eqb_spec (i mod j) 0) as [R|R]; cbn [negb].
  - rewrite i32_id by (unfold is_i32; change (2 ^ 31) with 2147483648; lia). nia.
  - assert (2 <= j) by (destruct (Z.eq_dec j 1) as [->|]; [rewrite Z.mod_1_r in R|]; lia).
    assert (2 * (i / j) <= i) by nia.
    rewrite i32_id by (unfold is_i32; change (2 ^ 31) with 2147483648; lia). nia.
Qed.

Lemma round_div_ceiling_witness :
  0 <= 7 < 2 ^ 31 /\ 0 < 2 < 2 ^ 31 /\
  exists r, round_div 7 2 = Some r /\ 7 <= r * 2 < 7 + 2.
Proof.
  assert (Hi : 0 <= 7 < 2 ^ 31) by lia.
  assert (Hj : 0 < 2 < 2 ^ 31) by lia.
  split; [exact Hi|]. split; [exact Hj|]. exact (round_div_ceiling 7 2 Hi Hj).
Defined.

(** X2. The product [round_div(i, j) * j] is [i], not more, exactly when [j]
    divides [i]. *)
Theorem round_div_exact i j :
  0 <= i < 2 ^ 31 -> 0 < j < 2 ^ 31 ->
  forall r, round_div i j = Some r -> (r * j = i <-> Z.rem i j = 0).
Proof.
  intros Hi Hj r. unfold round_div.
  destruct (Z.eqb_spec j 0) as [|_]; [lia|]. cbn [orb].
  destruct (Z.eqb_spec i (- 2 ^ 31)) as [|_]; [lia|]. cbn [andb].
  rewrite Z.quot_div_nonneg, Z.rem_mod_nonneg by lia.
  pose proof (Z.div_mod i j ltac:(lia)) as E.
  pose proof (Z.mod_pos_bound i j ltac:(lia)) as B.
  assert (Q : 0 <= i / j <= i).
  { split; [apply Z.div_pos; lia|]. apply Z.div_le_upper_bound; nia. }
  change (2 ^ 31) with 2147483648 in *.
  destruct (Z.eqb_spec (i mod j) 0) as [R|R]; cbn [negb]; intros [= <-].
  - rewrite i32_id by (unfold is_i32; change (2 ^ 31) with 2147483648; lia). nia.
  - assert (2 <= j) by (destruct (Z.eq_dec j 1) as [->|]; [rewrite Z.mod_1_r in R|]; lia).
    assert (2 * (i / j) <= i) by nia.
    rewrite i32_id by (unfold is_i32; change (2 ^ 31) with 2147483648; lia). nia.
Qed.

Lemma round_div_exact_witness :
  0 <= 8 < 2 ^ 31 /\ 0 < 2 < 2 ^ 31 /\ round_div 8 2 = Some 4 /\
  (4 * 2 = 8 <-> Z.rem 8 2 = 0).
Proof.
  assert (Hi : 0 <= 8 < 2 ^ 31) by lia.
  assert (Hj : 0 < 2 < 2 ^ 31) by lia.
  assert (E : round_div 8 2 = Some 4) by reflexivity.
  split; [exact Hi|]. split; [exact Hj|]. split; [exact E|].
  exact (round_div_exact 8 2 Hi Hj 4 E).
Defined.

(** X3. For [i < 0 < j] with [j] not dividing [i], the truncated quotient is
    already the ceiling, and [round_div] returns one more. *)
Theorem round_div_negative i j :
  - 2 ^ 31 <= i < 0 -> 0 < j < 2 ^ 31 -> Z.rem i j <> 0 ->
  exists r, round_div i j = Some r /\ i < (r - 1) * j < i + j.
Proof.
  intros Hi Hj R. unfold round_div.
  destruct (Z.eqb_spec j 0) as [|_]; [lia|]. cbn [orb].
  destruct (Z.eqb_spec j (-1)) as [|_]; [lia|]. rewrite andb_false_r.
  destruct (Z.eqb_spec (Z.rem i j) 0) as [|_]; [contradiction|]. cbn [negb].
  pose proof (Z.quot_rem' i j) as E.
  pose proof (Z.rem_bound_pos_neg i j ltac:(lia) ltac:(lia)) as B.
  eexists. split; [reflexivity|].
  change (2 ^ 31) with 2147483648 in *.
  assert (Q : i <= Z.quot i j * j) by nia.
  assert (Q0 : Z.quot i j <= 0) by nia.
  assert (Q1 : i <= Z.quot i j) by nia.
  rewrite i32_id by (unfold is_i32; change (2 ^ 31) with 2147483648; lia). nia.
Qed.

Lemma round_div_negative_witness :
  - 2 ^ 31 <= -7 < 0 /\ 0 < 2 < 2 ^ 31 /\ Z.rem (-7) 2 <> 0 /\
  exists r, round_div (-7) 2 = Some r /\ -7 < (r - 1) * 2 < -7 + 2.
Proof.
  assert (Hi : - 2 ^ 31 <= -7 < 0) by lia.
  assert (Hj : 0 < 2 < 2 ^ 31) by lia.
  assert (R : Z.rem (-7) 2 <> 0) by discriminate.
  split; [exact Hi|]. split; [exact Hj|]. split; [exact R|].
  exact (round_div_negative (-7) 2 Hi Hj R).
Defined.

(** ** [min], [max] and [clamp] over a total order *)

Section Order.

Context {T : Type} `{Cmp.Ordered T}.

Lemma lt_asym a b : Cmp.lt a b = true -> Cmp.lt b a = false.
Proof.
  intros L. destruct (Cmp.lt b a) eqn:E; [|reflexivity].
  rewrite <- (Cmp.lt_irrefl a). symmetry. exact (Cmp.lt_trans a b a L E).
Qed.

Lemma le_refl a : Cmp.le a a = true.
Proof. unfold Cmp.le. rewrite Cmp.lt_irrefl. reflexivity. Qed.

Lemma lt_le a b : Cmp.lt a b = true -> Cmp.le a b = true.
Proof. intros L. unfold Cmp.le. rewrite (lt_asym a b L). reflexivity. Qed.

(** [a <= b] is [a < b] or [a = b]. *)
Lemma le_cases a b : Cmp.le a b = true -> Cmp.lt a b = true \/ a = b.
Proof.
  unfold Cmp.le. intros L. apply negb_true_iff in L.
  destruct (Cmp.lt a b) eqn:E; [left; reflexivity|].
  right. apply Cmp.lt_total; assumption.
Qed.

Lemma le_trans a b c :
  Cmp.le a b = true -> Cmp.le b c = true -> Cmp.le a c = true.
Proof.
  intros L1 L2.
  destruct (le_cases a b L1) as [S1| ->]; [|exact L2].
  destruct (le_cases b c L2) as [S2| <-]; [|exact L1].
  apply lt_le. exact (Cmp.lt_trans a b c S1 S2).
Qed.

Lemma lt_le_trans a b c :
  Cmp.lt a b = true -> Cmp.le b c = true -> Cmp.lt a c = true.
Proof.
  intros L1 L2. destruct (le_cases b c L2) as [S2| <-]; [|exact L1].
  exact (Cmp.lt_trans a b c L1 S2).
Qed.

Lemma max_mono lo v v' :
  Cmp.le v v' = true -> Cmp.le (Cmp.max lo v) (Cmp.max lo v') = true.
Proof.
  intros L. unfold Cmp.max, Cmp.gt.
  destruct (Cmp.lt v lo) eqn:E1; destruct (Cmp.lt v' lo) eqn:E2.
  - apply le_refl.
  - unfold Cmp.le. rewrite E2. reflexivity.
  - destruct (le_cases v v' L) as [S| ->]; [|congruence].
    rewrite (Cmp.lt_trans v v' lo S E2) in E1. discriminate.
  - exact L.
Qed.

Lemma min_mono hi v v' :
  Cmp.le v v' = true -> Cmp.le (Cmp.min hi v) (Cmp.min hi v') = true.
Proof.
  intros L. unfold Cmp.min.
  destruct (Cmp.lt hi v) eqn:E1; destruct (Cmp.lt hi v') eqn:E2.
  - apply le_refl.
  - rewrite (lt_le_trans hi v v' E1 L) in E2. discriminate.
  - unfold Cmp.le. rewrite E1. reflexivity.
  - exact L.
Qed.

(** X4. [min] is a lower bound and [max] an upper bound of the two arguments,
    each is one of them, and both are commutative. *)
Theorem min_max_spec (a b : T) :
  Cmp.le (Cmp.min a b) a = true /\ Cmp.le (Cmp.min a b) b = true /\
  Cmp.le a (Cmp.max a b) = true /\ Cmp.le b (Cmp.max a b) = true /\
  (Cmp.min a b = a \/ Cmp.min a b = b) /\
  (Cmp.max a b = a \/ Cmp.max a b = b) /\
  Cmp.min a b = Cmp.min b a /\ Cmp.max a b = Cmp.max b a.
Proof.
  unfold Cmp.min, Cmp.max, Cmp.gt.
  destruct (Cmp.lt a b) eqn:E1; destruct (Cmp.lt b a) eqn:E2.
  - rewrite (lt_asym a b E1) in E2. discriminate.
  - repeat split; auto using le_refl, lt_le.
  - repeat split; auto using le_refl, lt_le.
  - rewrite (Cmp.lt_total a b E1 E2). repeat split; auto using le_refl.
Qed.

(** X5. With [lo <= hi] the result of [clamp] lies in [[lo, hi]]. *)
Theorem clamp_range (v lo hi : T) :
  Cmp.le lo hi = true ->
  Cmp.le lo (Cmp.clamp v lo hi) = true /\ Cmp.le (Cmp.clamp v lo hi) hi = true.
Proof.
  intros L. unfold Cmp.clamp, Cmp.min, Cmp.max, Cmp.gt.
  destruct (Cmp.lt v lo) eqn:E1.
  - unfold Cmp.le in L. apply negb_true_iff in L. rewrite L.
    split; [apply le_refl | unfold Cmp.le; rewrite L; reflexivity].
  - destruct (Cmp.lt hi v) eqn:E2.
    + split; [exact L | apply le_refl].
    + unfold Cmp.le. rewrite E1, E2. split; reflexivity.
Qed.

(** X6. A value already in [[lo, hi]] is left unchanged. *)
Theorem clamp_in_range (v lo hi : T) :
  Cmp.le lo v = true -> Cmp.le v hi = true -> Cmp.clamp v lo hi = v.
Proof.
  unfold Cmp.le. intros L1 L2. apply negb_true_iff in L1, L2.
  unfold Cmp.clamp, Cmp.min, Cmp.max, Cmp.gt. rewrite L1, L2. reflexivity.
Qed.

(** X7. With the bounds in the wrong order, [hi < lo], [clamp] returns [hi]
    whatever the value. *)
Theorem clamp_inverted (v lo hi : T) :
  Cmp.lt hi lo = true -> Cmp.clamp v lo hi = hi.
Proof.
  intros L. unfold Cmp.clamp, Cmp.min, Cmp.max, Cmp.gt.
  destruct (Cmp.lt v lo) eqn:E1.
  - rewrite L. reflexivity.
  - assert (S : Cmp.lt hi v = true).
    { apply (lt_le_trans hi lo v L). unfold Cmp.le. rewrite E1. reflexivity. }
    rewrite S. reflexivity.
Qed.

(** X8. [clamp] is monotone in the value it clamps. *)
Theorem clamp_monotone (v v' lo hi : T) :
  Cmp.le v v' = true ->
  Cmp.le (Cmp.clamp v lo hi) (Cmp.clamp v' lo hi) = true.
Proof.
  intros L. unfold Cmp.clamp. apply min_mono, max_mono. exact L.
Qed.

End Order.

Lemma clamp_range_witness :
  Cmp.le 0 5 = true /\
  Cmp.le 0 (Cmp.clamp 7 0 5) = true /\ Cmp.le (Cmp.clamp 7 0 5) 5 = true.
Proof. split; [reflexivity|]. exact (clamp_range 7 0 5 eq_refl). Defined.

Lemma clamp_in_range_witness :
  Cmp.le 0 3 = true /\ Cmp.le 3 5 = true /\ Cmp.clamp 3 0 5 = 3.
Proof.
  split; [reflexivity|]. split; [reflexivity|].
  exact (clamp_in_range 3 0 5 eq_refl eq_refl).
Defined.

Lemma clamp_inverted_witness :
  Cmp.lt 0 5 = true /\ Cmp.clamp 9 5 0 = 0.
Proof. split; [reflexivity|]. exact (clamp_inverted 9 5 0 eq_refl). Defined.

Lemma clamp_monotone_witness :
  Cmp.le (-3) 7 = true /\ Cmp.le (Cmp.clamp (-3) 0 5) (Cmp.clamp 7 0 5) = true.
Proof. split; [reflexivity|]. exact (clamp_monotone (-3) 7 0 5 eq_refl). Defined.

(** ** [prodsign] and the value of a float *)

Lemma flip_sign_eq x :
  is_u32 x ->
  Z.lxor x 0x80000000 = if x <? 2 ^ 31 then x + 2 ^ 31 else x - 2 ^ 31.
Proof.
  unfold is_u32. intros H. destruct (Z.ltb_spec x (2 ^ 31)).
  - apply lxor_top_low. lia.
  - apply lxor_top_high. lia.
Qed.

Lemma decode_opp s e m : decode (negb s) e m = SFopp (decode s e m).
Proof.
  unfold decode. destruct (e =? 0).
  - destruct m; reflexivity.
  - destruct (e =? 255); [destruct (m =? 0); reflexivity|].
    destruct (m + 2 ^ 23); reflexivity.
Qed.

(** Flipping the sign bit of a pattern negates its value. *)
Lemma value_flip x : is_u32 x -> value (Z.lxor x 0x80000000) = SFopp (value x).
Proof.
  intros Hx. rewrite flip_sign_eq by exact Hx. unfold value.
  rewrite <- decode_opp.
  assert (R : is_u32 (if x <? 2 ^ 31 then x + 2 ^ 31 else x - 2 ^ 31)).
  { unfold is_u32 in *. destruct (Z.ltb_spec x (2 ^ 31)); lia. }
  rewrite (sign_bit_eq _ R), (sign_bit_eq x Hx).
  rewrite !exponent_field_eq, !mantissa_field_eq. unfold is_u32 in *.
  change (2 ^ 31) with (256 * 2 ^ 23) in *.
  destruct (Z.ltb_spec x (256 * 2 ^ 23)) as [L|G].
  - rewrite Z.div_add, Z.mod_add by lia.
    replace (x / 2 ^ 23 + 256) with (x / 2 ^ 23 + 1 * 2 ^ 8) by (simpl; lia).
    rewrite Z.mod_add by lia.
    destruct (Z.ltb_spec (x + 256 * 2 ^ 23) (256 * 2 ^ 23)); [lia|reflexivity].
  - replace (x - 256 * 2 ^ 23) with (x + (-256) * 2 ^ 23) by lia.
    rewrite Z.div_add, Z.mod_add by lia.
    replace (x / 2 ^ 23 + -256) with (x / 2 ^ 23 + (-1) * 2 ^ 8) by (simpl; lia).
    rewrite Z.mod_add by lia.
    destruct (Z.ltb_spec (x + -256 * 2 ^ 23) (256 * 2 ^ 23)); [reflexivity|lia].
Qed.

Lemma prodsign_flip x y :
  is_u32 x -> is_u32 y ->
  prodsign x y = if sign_bit y then Z.lxor x 0x80000000 else x.
Proof.
  intros Hx Hy. rewrite prodsign_eq, (sign_bit_eq y Hy) by assumption.
  destruct (y <? 2 ^ 31); cbv [negb]; [reflexivity|].
  symmetry. apply flip_sign_eq. exact Hx.
Qed.

(** X9. [prodsign x y] denotes [x] when the sign bit of [y] is clear and [-x]
    when it is set, also when [y] is a zero, an infinity or a NaN. *)
Theorem prodsign_value x y :
  is_u32 x -> is_u32 y ->
  value (prodsign x y) = if sign_bit y then SFopp (value x) else value x.
Proof.
  intros Hx Hy. rewrite prodsign_flip by assumption.
  destruct (sign_bit y); [apply value_flip; exact Hx | reflexivity].
Qed.

Lemma prodsign_value_witness :
  is_u32 f32_3_0 /\ is_u32 f32_neg_zero /\
  value (prodsign f32_3_0 f32_neg_zero)
  = if sign_bit f32_neg_zero then SFopp (value f32_3_0) else value f32_3_0.
Proof.
  assert (Hx : is_u32 f32_3_0) by (unfold is_u32, f32_3_0; lia).
  assert (Hy : is_u32 f32_neg_zero) by (unfold is_u32, f32_neg_zero; lia).
  split; [exact Hx|]. split; [exact Hy|].
  exact (prodsign_value f32_3_0 f32_neg_zero Hx Hy).
Defined.

Lemma prodsign_range x y : is_u32 x -> is_u32 y -> is_u32 (prodsign x y).
Proof.
  intros Hx Hy. rewrite prodsign_eq by assumption. unfold is_u32 in *.
  destruct (y <? 2 ^ 31); [lia|]. destruct (Z.ltb_spec x (2 ^ 31)); lia.
Qed.

(** X10. Applying the sign of the same [y] twice gives [x] back. *)
Theorem prodsign_involutive x y :
  is_u32 x -> is_u32 y -> prodsign (prodsign x y) y = x.
Proof.
  intros Hx Hy.
  rewrite (prodsign_eq (prodsign x y) y (prodsign_range x y Hx Hy) Hy).
  rewrite prodsign_eq by assumption. unfold is_u32 in *.
  destruct (y <? 2 ^ 31); [reflexivity|].
  destruct (Z.ltb_spec x (2 ^ 31));
    match goal with |- context [?a <? ?b] => destruct (Z.ltb_spec a b) end; lia.
Qed.

Lemma prodsign_involutive_witness :
  is_u32 f32_5_0 /\ is_u32 f32_neg_1_0 /\
  prodsign (prodsign f32_5_0 f32_neg_1_0) f32_neg_1_0 = f32_5_0.
Proof.
  assert (Hx : is_u32 f32_5_0) by (unfold is_u32, f32_5_0; lia).
  assert (Hy : is_u32 f32_neg_1_0) by (unfold is_u32, f32_neg_1_0; lia).
  split; [exact Hx|]. split; [exact Hy|].
  exact (prodsign_involutive f32_5_0 f32_neg_1_0 Hx Hy).
Defined.

(** ** Signs of rounded results *)

Lemma shr_1_nonneg r : 0 <= shr_m r -> 0 <= shr_m (shr_1 r).
Proof.
  destruct r as [m rb sb]. cbn [shr_m].
  destruct m as [|[p|p|]|[p|p|]]; cbn [shr_1 shr_m]; lia.
Qed.

Lemma iter_pos_inv {A : Type} (P : A -> Prop) (f : A -> A) :
  (forall x, P x -> P (f x)) -> forall p x, P x -> P (iter_pos f p x).
Proof.
  intros Hf. induction p as [p IH|p IH|]; intros x Hx; cbn [iter_pos]; auto.
Qed.

Lemma shr_nonneg mrs e n : 0 <= shr_m mrs -> 0 <= shr_m (fst (shr mrs e n)).
Proof.
  intros Hm. unfold shr. destruct n as [|p|p]; cbn [fst]; try exact Hm.
  apply (iter_pos_inv (fun r => 0 <= shr_m r)); [exact shr_1_nonneg | exact Hm].
Qed.

Lemma shr_fexp_nonneg m e l :
  0 <= m -> 0 <= shr_m (fst (shr_fexp prec emax m e l)).
Proof.
  intros Hm. unfold shr_fexp. apply shr_nonneg.
  destruct l as [|[| |]]; exact Hm.
Qed.

Lemma round_nearest_even_nonneg m l : 0 <= m -> 0 <= round_nearest_even m l.
Proof.
  intros Hm. unfold round_nearest_even.
  destruct l as [|[| |]]; try destruct (Z.even m); lia.
Qed.

(** Rounding a non-negative mantissa gives a zero, a finite number or an
    infinity of the requested sign, never a NaN. *)
Lemma binary_round_aux_sign sx mx ex lx :
  0 <= mx -> sign_of (binary_round_aux prec emax sx mx ex lx) = Some sx.
Proof.
  intros Hm. unfold binary_round_aux.
  pose proof (shr_fexp_nonneg mx ex lx Hm) as H1.
  destruct (shr_fexp prec emax mx ex lx) as [mrs' e']. cbn [fst] in H1.
  pose proof (shr_fexp_nonneg
                (round_nearest_even (shr_m mrs') (loc_of_shr_record mrs'))
                e' loc_Exact
                (round_nearest_even_nonneg _ _ H1)) as H2.
  destruct (shr_fexp prec emax _ e' loc_Exact) as [mrs'' e'']. cbn [fst] in H2.
  destruct (shr_m mrs'') as [|p|p]; [reflexivity | | lia].
  destruct (e'' <=? emax - prec); reflexivity.
Qed.

Lemma SFdiv_core_nonneg mx ex my ey :
  0 <= fst (fst (SFdiv_core_binary prec emax (Z.pos mx) ex (Z.pos my) ey)).
Proof.
  unfold SFdiv_core_binary.
  set (s := ex - ey - _).
  set (m' := match s with Z0 => _ | Z.pos _ => _ | Z.neg _ => _ end).
  assert (Hm : 0 <= m').
  { subst m'. destruct s; [lia | apply Z.shiftl_nonneg; lia | lia]. }
  pose proof (Z.div_pos m' (Z.pos my) Hm ltac:(lia)) as Q.
  unfold Z.div in Q. destruct (Z.div_eucl m' (Z.pos my)) as [q r].
  exact Q.
Qed.

Lemma SFdiv_sign v1 v2 :
  is_nan (SFdiv prec emax v1 v2) = false ->
  exists s1 s2, sign_of v1 = Some s1 /\ sign_of v2 = Some s2 /\
    sign_of (SFdiv prec emax v1 v2) = Some (xorb s1 s2).
Proof.
  destruct v1 as [s1|s1| |s1 m1 e1]; destruct v2 as [s2|s2| |s2 m2 e2];
    cbn [SFdiv is_nan]; try discriminate; intros _; exists s1, s2;
    repeat split.
  pose proof (SFdiv_core_nonneg m1 e1 m2 e2) as Q.
  destruct (SFdiv_core_binary prec emax (Z.pos m1) e1 (Z.pos m2) e2) as [[mz ez] lz].
  apply binary_round_aux_sign. exact Q.
Qed.

Lemma SFmul_sign v1 v2 :
  is_nan (SFmul prec emax v1 v2) = false ->
  exists s1 s2, sign_of v1 = Some s1 /\ sign_of v2 = Some s2 /\
    sign_of (SFmul prec emax v1 v2) = Some (xorb s1 s2).
Proof.
  destruct v1 as [s1|s1| |s1 m1 e1]; destruct v2 as [s2|s2| |s2 m2 e2];
    cbn [SFmul is_nan]; try discriminate; intros _; exists s1, s2;
    repeat split.
  apply binary_round_aux_sign. lia.
Qed.

(** The sign of the value of a pattern is its sign bit. *)
Lemma sign_of_value x s : sign_of (value x) = Some s -> s = sign_bit x.
Proof.
  unfold value, decode.
  destruct (exponent_field x =? 0).
  - destruct (mantissa_field x); cbn [sign_of]; congruence.
  - destruct (exponent_field x =? 255).
    + destruct (mantissa_field x =? 0); cbn [sign_of]; congruence.
    + destruct (mantissa_field x + 2 ^ 23); cbn [sign_of]; congruence.
Qed.

Lemma sign_of_nan v : is_nan v = false -> exists s, sign_of v = Some s.
Proof. destruct v as [s|s| |s m e]; try discriminate; intros _; exists s; reflexivity. Qed.

Lemma prodsign_sign_bit x y :
  is_u32 x -> is_u32 y ->
  sign_bit (prodsign x y) = xorb (sign_bit x) (sign_bit y).
Proof.
  intros Hx Hy.
  rewrite (sign_bit_eq _ (prodsign_range x y Hx Hy)).
  rewrite (sign_bit_eq x Hx), (sign_bit_eq y Hy).
  rewrite prodsign_eq by assumption. unfold is_u32 in *.
  destruct (Z.ltb_spec y (2 ^ 31)); cbv [negb].
  - rewrite xorb_false_r. reflexivity.
  - rewrite xorb_true_r.
    destruct (Z.ltb_spec x (2 ^ 31)); cbv [negb];
      match goal with |- context [?a <? ?b] => destruct (Z.ltb_spec a b) end;
      first [reflexivity | exfalso; lia].
Qed.

(** X11. "Returns x with the sign of x * y": whenever the product [x * y] is
    not a NaN, its sign is the sign bit of [prodsign x y]. *)
Theorem prodsign_sign_of_product x y :
  is_u32 x -> is_u32 y -> is_nan (fmul x y) = false ->
  sign_of (fmul x y) = Some (sign_bit (prodsign x y)).
Proof.
  intros Hx Hy N. unfold fmul in *.
  destruct (SFmul_sign _ _ N) as (s1 & s2 & S1 & S2 & S).
  rewrite S, (prodsign_sign_bit x y Hx Hy).
  rewrite (sign_of_value x s1 S1), (sign_of_value y s2 S2). reflexivity.
Qed.

Lemma prodsign_sign_of_product_witness :
  is_u32 f32_3_0 /\ is_u32 f32_neg_2_0 /\
  is_nan (fmul f32_3_0 f32_neg_2_0) = false /\
  sign_of (fmul f32_3_0 f32_neg_2_0)
  = Some (sign_bit (prodsign f32_3_0 f32_neg_2_0)).
Proof.
  assert (Hx : is_u32 f32_3_0) by (unfold is_u32, f32_3_0; lia).
  assert (Hy : is_u32 f32_neg_2_0) by (unfold is_u32, f32_neg_2_0; lia).
  assert (N : is_nan (fmul f32_3_0 f32_neg_2_0) = false) by (vm_compute; reflexivity).
  split; [exact Hx|]. split; [exact Hy|]. split; [exact N|].
  exact (prodsign_sign_of_product f32_3_0 f32_neg_2_0 Hx Hy N).
Defined.

(** ** [safe_rcp]: signs and NaNs *)

(** X12. [safe_rcp x] is a NaN exactly when [x] is; otherwise it is a zero, a
    finite number or an infinity with the sign bit of [x]. *)
Theorem safe_rcp_sign x :
  is_u32 x ->
  (is_nan (value x) = true -> safe_rcp x = S754_nan) /\
  (is_nan (value x) = false -> sign_of (safe_rcp x) = Some (sign_bit x)).
Proof.
  intros Hx. unfold safe_rcp.
  destruct (fne x f32_pos_zero) eqn:E.
  - unfold fdiv. change (value f32_1_0) with (S754_finite false 8388608 (-23)).
    split.
    + intros N. destruct (value x); try discriminate. reflexivity.
    + intros N.
      assert (ND : is_nan (SFdiv prec emax (S754_finite false 8388608 (-23)) (value x)) = false).
      { destruct (value x) as [s|s| |s m e] eqn:V; try discriminate;
          cbn [SFdiv is_nan]; try reflexivity.
        pose proof (SFdiv_core_nonneg 8388608 (-23) m e) as Q.
        destruct (SFdiv_core_binary prec emax 8388608 (-23) (Z.pos m) e) as [[mz ez] lz].
        pose proof (binary_round_aux_sign (xorb false s) mz ez lz Q) as S.
        destruct (binary_round_aux prec emax (xorb false s) mz ez lz);
          [reflexivity | reflexivity | discriminate | reflexivity]. }
      destruct (SFdiv_sign _ _ ND) as (s1 & s2 & S1 & S2 & S).
      rewrite S. cbn [sign_of] in S1. injection S1 as <-.
      rewrite (sign_of_value x s2 S2). reflexivity.
  - apply (fne_zero x Hx) in E.
    destruct (copysign_inf_zero x E) as [_ V]. rewrite V.
    split; [|reflexivity].
    intros N. destruct E as [-> | ->]; vm_compute in N; discriminate.
Qed.

Lemma safe_rcp_sign_witness :
  is_u32 f32_neg_inf /\ is_nan (value f32_neg_inf) = false /\
  sign_of (safe_rcp f32_neg_inf) = Some (sign_bit f32_neg_inf).
Proof.
  assert (Hx : is_u32 f32_neg_inf) by (unfold is_u32, f32_neg_inf; lia).
  assert (N : is_nan (value f32_neg_inf) = false) by (vm_compute; reflexivity).
  split; [exact Hx|]. split; [exact N|].
  exact (proj2 (safe_rcp_sign f32_neg_inf Hx) N).
Defined.

(** ** Ordered floats: infinities, NaNs and negation *)

(** A pattern is a NaN when its exponent field is 255 and its fraction is
    not zero. *)
Lemma is_nan_fields x :
  is_u32 x ->
  (is_nan (value x) = true <->
   exponent_field x = 255 /\ mantissa_field x <> 0).
Proof.
  intros Hx. destruct (fields x Hx) as (HE & HM & _).
  unfold value, decode. change (2 ^ 23) with 8388608 in *.
  destruct (Z.eqb_spec (exponent_field x) 0) as [Z0|N0].
  - destruct (mantissa_field x); cbn [is_nan]; split;
      first [discriminate | intros [? _]; lia].
  - destruct (Z.eqb_spec (exponent_field x) 255) as [E|E].
    + destruct (Z.eqb_spec (mantissa_field x) 0) as [M|M]; cbn [is_nan]; split;
        first [discriminate | intros [_ ?]; contradiction | auto].
    + destruct (mantissa_field x + 8388608) as [|p|p] eqn:P; try lia.
      cbn [is_nan]. split; [discriminate | intros [? _]; contradiction].
Qed.

Lemma decode_compare_all s1 e1 m1 s2 e2 m2 :
  0 <= e1 <= 255 -> 0 <= m1 < 2 ^ 23 -> (e1 = 255 -> m1 = 0) ->
  0 <= e2 <= 255 -> 0 <= m2 < 2 ^ 23 -> (e2 = 255 -> m2 = 0) ->
  SFcompare (decode s1 e1 m1) (decode s2 e2 m2)
  = Some (skey s1 e1 m1 ?= skey s2 e2 m2).
Proof.
  intros He1 Hm1 I1 He2 Hm2 I2.
  destruct (Z.eq_dec e1 255) as [E1|E1]; destruct (Z.eq_dec e2 255) as [E2|E2].
  - rewrite E1, E2, (I1 E1), (I2 E2).
    change (decode s1 255 0) with (S754_infinity s1).
    change (decode s2 255 0) with (S754_infinity s2).
    destruct s1, s2; reflexivity.
  - rewrite E1, (I1 E1). change (decode s1 255 0) with (S754_infinity s1).
    unfold skey. change (2 ^ 23) with 8388608 in *.
    destruct (decode_finite s2 e2 m2 ltac:(lia) ltac:(lia))
      as [(-> & -> & ->) | (p2 & x2 & -> & L2 & K2 & U2 & N2)];
    destruct s1, s2; cbn [SFcompare]; f_equal; compare_cases.
  - rewrite E2, (I2 E2). change (decode s2 255 0) with (S754_infinity s2).
    unfold skey. change (2 ^ 23) with 8388608 in *.
    destruct (decode_finite s1 e1 m1 ltac:(lia) ltac:(lia))
      as [(-> & -> & ->) | (p1 & x1 & -> & L1 & K1 & U1 & N1)];
    destruct s1, s2; cbn [SFcompare]; f_equal; compare_cases.
  - apply decode_compare; lia.
Qed.

Lemma value_compare_all a b :
  is_u32 a -> is_u32 b -> is_nan (value a) = false -> is_nan (value b) = false ->
  SFcompare (value a) (value b) = Some (smag a ?= smag b).
Proof.
  intros Ha Hb Na Nb.
  destruct (fields a Ha) as (HEa & HMa & Da).
  destruct (fields b Hb) as (HEb & HMb & Db).
  assert (Ia : exponent_field a = 255 -> mantissa_field a = 0).
  { intros E. destruct (Z.eq_dec (mantissa_field a) 0) as [|M]; [assumption|].
    rewrite (proj2 (is_nan_fields a Ha) (conj E M)) in Na. discriminate. }
  assert (Ib : exponent_field b = 255 -> mantissa_field b = 0).
  { intros E. destruct (Z.eq_dec (mantissa_field b) 0) as [|M]; [assumption|].
    rewrite (proj2 (is_nan_fields b Hb) (conj E M)) in Nb. discriminate. }
  unfold value. rewrite decode_compare_all by (assumption || lia).
  do 2 f_equal; unfold skey, smag;
    rewrite sign_bit_eq by assumption;
    match goal with |- context [?u <? _] => destruct (Z.ltb_spec u (2 ^ 31)) end;
    cbv [negb]; lia.
Qed.

(** X13. The order of the keys is the order of the floats on all floats that
    are not NaNs, the two infinities included, up to the pair of zeros. *)
Theorem float_to_ordered_order_inf a b :
  is_u32 a -> is_u32 b -> is_nan (value a) = false -> is_nan (value b) = false ->
  (flt a b = true <->
   float_to_ordered a < float_to_ordered b /\
   ~ (a = f32_neg_zero /\ b = f32_pos_zero)).
Proof.
  intros Ha Hb Na Nb. unfold flt, SFltb.
  rewrite (value_compare_all a b Ha Hb Na Nb).
  rewrite !float_to_ordered_eq by assumption.
  unfold smag, f32_neg_zero, f32_pos_zero, is_u32 in *.
  change (2 ^ 31) with 2147483648 in *. change (2 ^ 32) with 4294967296 in *.
  destruct (Z.ltb_spec a 2147483648); destruct (Z.ltb_spec b 2147483648);
    match goal with |- context [?x ?= ?y] => destruct (Z.compare_spec x y) end;
    split; first [discriminate | lia | intros _; lia | reflexivity].
Qed.

Lemma float_to_ordered_order_inf_witness :
  is_u32 f32_neg_inf /\ is_u32 f32_pos_inf /\
  is_nan (value f32_neg_inf) = false /\ is_nan (value f32_pos_inf) = false /\
  (flt f32_neg_inf f32_pos_inf = true <->
   float_to_ordered f32_neg_inf < float_to_ordered f32_pos_inf /\
   ~ (f32_neg_inf = f32_neg_zero /\ f32_pos_inf = f32_pos_zero)).
Proof.
  assert (Ha : is_u32 f32_neg_inf) by (unfold is_u32, f32_neg_inf; lia).
  assert (Hb : is_u32 f32_pos_inf) by (unfold is_u32, f32_pos_inf; lia).
  assert (Na : is_nan (value f32_neg_inf) = false) by (vm_compute; reflexivity).
  assert (Nb : is_nan (value f32_pos_inf) = false) by (vm_compute; reflexivity).
  split; [exact Ha|]. split; [exact Hb|]. split; [exact Na|]. split; [exact Nb|].
  exact (float_to_ordered_order_inf f32_neg_inf f32_pos_inf Ha Hb Na Nb).
Defined.

(** X14. The keys of the NaNs are the keys below the key of [-inf] and above
    the key of [+inf]. *)
Theorem nan_keys x :
  is_u32 x ->
  (is_nan (value x) = true <->
   float_to_ordered x < float_to_ordered f32_neg_inf \/
   float_to_ordered f32_pos_inf < float_to_ordered x).
Proof.
  intros Hx. rewrite (is_nan_fields x Hx).
  destruct (fields x Hx) as (HE & HM & D).
  rewrite (float_to_ordered_eq x Hx).
  change (float_to_ordered f32_neg_inf) with 0x007FFFFF.
  change (float_to_ordered f32_pos_inf) with 0xFF800000.
  unfold is_u32 in Hx.
  change (2 ^ 23) with 8388608 in *. change (2 ^ 31) with 2147483648 in *.
  change (2 ^ 32) with 4294967296 in *.
  destruct (Z.ltb_spec x 2147483648); lia.
Qed.

Lemma nan_keys_witness :
  is_u32 0x7FC00000 /\
  (is_nan (value 0x7FC00000) = true <->
   float_to_ordered 0x7FC00000 < float_to_ordered f32_neg_inf \/
   float_to_ordered f32_pos_inf < float_to_ordered 0x7FC00000).
Proof.
  assert (Hx : is_u32 0x7FC00000) by (unfold is_u32; lia).
  split; [exact Hx|]. exact (nan_keys 0x7FC00000 Hx).
Defined.

(** X15. Negating a float, which flips its sign bit, complements its key. *)
Theorem key_of_negation x :
  is_u32 x ->
  value (Z.lxor x 0x80000000) = SFopp (value x) /\
  float_to_ordered (Z.lxor x 0x80000000) = 0xFFFFFFFF - float_to_ordered x.
Proof.
  intros Hx. split; [apply value_flip; exact Hx|].
  assert (R : is_u32 (Z.lxor x 0x80000000)).
  { rewrite flip_sign_eq by exact Hx. unfold is_u32 in *.
    destruct (Z.ltb_spec x (2 ^ 31)); lia. }
  rewrite (float_to_ordered_eq _ R), (float_to_ordered_eq x Hx).
  rewrite flip_sign_eq by exact Hx. unfold is_u32 in *.
  change (2 ^ 31) with 2147483648 in *. change (2 ^ 32) with 4294967296 in *.
  destruct (Z.ltb_spec x 2147483648);
    match goal with |- context [?a <? ?b] => destruct (Z.ltb_spec a b) end; lia.
Qed.

Lemma key_of_negation_witness :
  is_u32 f32_3_0 /\
  value (Z.lxor f32_3_0 0x80000000) = SFopp (value f32_3_0) /\
  float_to_ordered (Z.lxor f32_3_0 0x80000000)
  = 0xFFFFFFFF - float_to_ordered f32_3_0.
Proof.
  assert (Hx : is_u32 f32_3_0) by (unfold is_u32, f32_3_0; lia).
  split; [exact Hx|]. exact (key_of_negation f32_3_0 Hx).
Defined.

(** ** [icbrt] on every [int] *)

Lemma u32_i32 z : u32 (i32 z) = u32 z.
Proof.
  unfold i32, to_signed, u32, to_unsigned.
  destruct (z mod 2 ^ 32 <? 2 ^ (32 - 1)).
  - apply Z.mod_mod. lia.
  - replace (z mod 2 ^ 32 - 2 ^ 32) with (z mod 2 ^ 32 + (-1) * 2 ^ 32) by lia.
    rewrite Z.mod_add by lia. apply Z.mod_mod. lia.
Qed.

Lemma u32_range z : 0 <= u32 z < 2 ^ 32.
Proof. apply Z.mod_pos_bound. lia. Qed.

Lemma cube_small_u y n : 0 <= y -> y ^ 3 <= n -> n < 2 ^ 32 -> y <= 1625.
Proof.
  intros Hy Hc Hn. replace (y ^ 3) with (y * y * y) in Hc by ring.
  change (2 ^ 32) with 4294967296 in Hn. nia.
Qed.

Lemma body_bounds_u x0 Q x y :
  0 <= x0 < 2 ^ 32 -> 1 <= Q <= 2 ^ 30 -> (2 ^ 27 < Q -> 2 ^ 30 <= Q) ->
  cube_inv x0 (8 * Q) x y ->
  0 <= y <= 1625 /\ 0 <= (3 * (2 * y) * (2 * y + 1) + 1) * Q < 2 ^ 32.
Proof.
  intros Hx0 HQ Hpow (Hy & Hx & Ex & Ux).
  replace (y ^ 3) with (y * y * y) in * by ring.
  change (2 ^ 27) with 134217728 in *. change (2 ^ 30) with 1073741824 in *.
  change (2 ^ 32) with 4294967296 in *.
  assert (Hc : y * y * y * (8 * Q) <= x0) by lia.
  assert (Y : y <= 1625) by nia.
  split; [lia|]. split; [nia|].
  destruct (Z.eq_dec y 0) as [->|Ny]; [lia|].
  assert (Q <= 134217728) by nia.
  destruct (Z.eq_dec y 1) as [->|Ny1]; [lia|].
  assert (C8 : 8 * (3 * (2 * y) * (2 * y + 1) + 1) <= 61 * (y * y * y)) by nia.
  assert (C8Q : 8 * (3 * (2 * y) * (2 * y + 1) + 1) * Q <= 61 * (y * y * y) * Q)
    by (apply Z.mul_le_mono_nonneg_r; lia).
  lia.
Qed.

(** The body only reads [x] as an [unsigned]: the invariant holds of
    [u32 x], for every [x0] below [2^32]. *)
Lemma icbrt_body_inv_u x0 s x y :
  0 <= x0 < 2 ^ 32 -> 0 <= s <= 30 -> (27 < s -> s = 30) ->
  cube_inv x0 (2 ^ (s + 3)) (u32 x) y ->
  cube_inv x0 (2 ^ s) (u32 (fst (icbrt_body s x y))) (snd (icbrt_body s x y)).
Proof.
  intros Hx0 Hs Hs3 Inv.
  assert (HQ : 1 <= 2 ^ s <= 2 ^ 30).
  { split; [|apply Z.pow_le_mono_r; lia].
    change 1 with (2 ^ 0). apply Z.pow_le_mono_r; lia. }
  assert (Hpow : 2 ^ 27 < 2 ^ s -> 2 ^ 30 <= 2 ^ s).
  { intros L. apply Z.pow_lt_mono_r_iff in L; [|lia|lia].
    rewrite (Hs3 L). lia. }
  replace (2 ^ (s + 3)) with (8 * 2 ^ s) in Inv
    by (rewrite Z.pow_add_r by lia; change (2 ^ 3) with 8; ring).
  destruct (body_bounds_u x0 (2 ^ s) (u32 x) y Hx0 HQ Hpow Inv) as (Hy & Hb).
  pose proof (u32_range x) as Hxu.
  unfold icbrt_body. cbv zeta.
  change (2 ^ 32) with 4294967296 in *.
  rewrite (u32_small (2 * y)) by (change (2 ^ 32) with 4294967296; lia).
  rewrite (u32_small (3 * (2 * y))) by (change (2 ^ 32) with 4294967296; lia).
  rewrite (u32_small (2 * y + 1)) by (change (2 ^ 32) with 4294967296; lia).
  rewrite (u32_small (3 * (2 * y) * (2 * y + 1)))
    by (change (2 ^ 32) with 4294967296; nia).
  rewrite (u32_small (3 * (2 * y) * (2 * y + 1) + 1))
    by (change (2 ^ 32) with 4294967296; nia).
  rewrite Z.shiftl_mul_pow2 by lia.
  rewrite (u32_small ((3 * (2 * y) * (2 * y + 1) + 1) * 2 ^ s))
    by (change (2 ^ 32) with 4294967296; lia).
  destruct Inv as (_ & Hx & Ex & Ux). unfold cube_inv.
  set (Q := 2 ^ s) in *. set (X := u32 x) in *.
  replace (y ^ 3 * (8 * Q)) with (8 * (y * y * y * Q)) in * by ring.
  replace ((y + 1) ^ 3 * (8 * Q))
    with (8 * (y * y * y * Q) + 24 * (y * y * Q) + 24 * (y * Q) + 8 * Q) in * by ring.
  replace ((3 * (2 * y) * (2 * y + 1) + 1) * Q)
    with (12 * (y * y * Q) + 6 * (y * Q) + Q) in * by ring.
  destruct (Z.geb_spec X (12 * (y * y * Q) + 6 * (y * Q) + Q)) as [G|L];
    cbn [fst snd].
  - rewrite u32_i32, (u32_small (u32 _)) by apply u32_range.
    rewrite (u32_small (X - _)) by (change (2 ^ 32) with 4294967296; lia).
    replace ((2 * y + 1) ^ 3 * Q)
      with (8 * (y * y * y * Q) + 12 * (y * y * Q) + 6 * (y * Q) + Q) by ring.
    replace ((2 * y + 1 + 1) ^ 3 * Q)
      with (8 * (y * y * y * Q) + 24 * (y * y * Q) + 24 * (y * Q) + 8 * Q) by ring.
    lia.
  - fold X.
    replace ((2 * y) ^ 3 * Q) with (8 * (y * y * y * Q)) by ring.
    replace ((2 * y + 1) ^ 3 * Q)
      with (8 * (y * y * y * Q) + 12 * (y * y * Q) + 6 * (y * Q) + Q) by ring.
    lia.
Qed.

Lemma icbrt_loop_spec_u x0 :
  0 <= x0 < 2 ^ 32 ->
  forall (n fuel : nat) (s x y : Z),
    (n <= 11)%nat -> (n < fuel)%nat -> s = 3 * Z.of_nat n - 3 ->
    cube_inv x0 (2 ^ (s + 3)) (u32 x) y ->
    exists r, icbrt_loop fuel s x y = Some r /\ r ^ 3 <= x0 < (r + 1) ^ 3.
Proof.
  intros Hx0. induction n as [|n IH]; intros fuel s x y Hn Hf Es Inv.
  - destruct fuel as [|fuel]; [lia|]. subst s. cbn [icbrt_loop].
    change (3 * Z.of_nat 0 - 3 >=? 0) with false. cbv iota.
    change (2 ^ (3 * Z.of_nat 0 - 3 + 3)) with 1 in Inv.
    destruct Inv as (Hy & Hx & Ex & Ux). rewrite Z.mul_1_r in *.
    assert (y <= 1625) by (apply (cube_small_u y x0); lia).
    exists y. split; [|lia].
    rewrite i32_small by (change (2 ^ 31) with 2147483648; lia). reflexivity.
  - destruct fuel as [|fuel]; [lia|].
    assert (Hs : 0 <= s <= 30) by lia.
    assert (Hs3 : 27 < s -> s = 30) by lia.
    cbn [icbrt_loop].
    destruct (Z.geb_spec s 0) as [_|]; [|lia].
    pose proof (icbrt_body_inv_u x0 s x y Hx0 Hs Hs3 Inv) as Inv'.
    destruct (icbrt_body s x y) as [x' y']. cbn [fst snd] in Inv'.
    assert (Ei : i32 (s - 3) = s - 3).
    { apply i32_id. unfold is_i32. change (2 ^ 31) with 2147483648. lia. }
    rewrite Ei. apply (IH fuel (s - 3) x' y'); [lia|lia|lia|].
    replace (s - 3 + 3) with s by lia. exact Inv'.
Qed.

(** X16. On a negative [int] the comparison [x >= b] reads [x] as the unsigned
    [x + 2^32]: [icbrt] returns the cube root of that number, between 1290
    and 1625. *)
Theorem icbrt_negative x :
  - 2 ^ 31 <= x < 0 ->
  exists y, icbrt x = Some y /\
    y ^ 3 <= x + 2 ^ 32 < (y + 1) ^ 3 /\ 1290 <= y <= 1625.
Proof.
  intros Hx.
  assert (U : u32 x = x + 2 ^ 32).
  { symmetry. apply (Z.mod_unique x (2 ^ 32) (-1)); lia. }
  assert (Hx0 : 0 <= x + 2 ^ 32 < 2 ^ 32) by lia.
  destruct (icbrt_loop_spec_u (x + 2 ^ 32) Hx0 11%nat 12%nat 30 x 0)
    as (y & E & B); [lia | lia | reflexivity | |].
  - rewrite U. unfold cube_inv. change (2 ^ (30 + 3)) with 8589934592.
    change (2 ^ 32) with 4294967296 in *. simpl. lia.
  - exists y. split; [exact E|]. split; [exact B|].
    change (2 ^ 31) with 2147483648 in *. change (2 ^ 32) with 4294967296 in *.
    replace (y ^ 3) with (y * y * y) in B by ring.
    replace ((y + 1) ^ 3) with ((y + 1) * (y + 1) * (y + 1)) in B by ring.
    assert (0 <= y \/ y < 0) as [P|N] by lia; [|nia].
    split; nia.
Qed.

Lemma icbrt_negative_witness :
  - 2 ^ 31 <= -1 < 0 /\
  exists y, icbrt (-1) = Some y /\
    y ^ 3 <= -1 + 2 ^ 32 < (y + 1) ^ 3 /\ 1290 <= y <= 1625.
Proof.
  assert (Hx : - 2 ^ 31 <= -1 < 0) by lia.
  split; [exact Hx|]. exact (icbrt_negative (-1) Hx).
Defined.

(** ** [icbrt]: monotonicity and perfect cubes *)

Lemma cube_nonpos z : z <= 0 -> z ^ 3 <= 0.
Proof.
  intros Hz. replace (z ^ 3) with (z * (z * z)) by ring.
  apply Z.mul_nonpos_nonneg; [exact Hz | apply Z.square_nonneg].
Qed.

Lemma icbrt_floor x :
  0 <= x < 2 ^ 31 ->
  exists y, icbrt x = Some y /\ 0 <= y <= 1290 /\ y ^ 3 <= x < (y + 1) ^ 3.
Proof.
  intros Hx.
  destruct (icbrt_loop_spec x Hx 11%nat 12%nat 30 x 0) as (y & E & B);
    [lia | lia | reflexivity | |].
  - unfold cube_inv. change (2 ^ (30 + 3)) with 8589934592.
    change (2 ^ 31) with 2147483648 in Hx. simpl. lia.
  - exists y. split; [exact E|]. split; [|exact B].
    assert (P : 0 <= y).
    { destruct (Z_lt_le_dec y 0) as [N|]; [exfalso|assumption].
      pose proof (cube_nonpos (y + 1) ltac:(lia)). lia. }
    split; [exact P|]. apply (cube_small y x); lia.
Qed.

Lemma cube_lt a b : 0 <= a -> 0 <= b -> a ^ 3 < (b + 1) ^ 3 -> a <= b.
Proof.
  intros Ha Hb L. destruct (Z_le_gt_dec a b) as [|G]; [assumption|exfalso].
  assert (M : (b + 1) ^ 3 <= a ^ 3) by (apply Z.pow_le_mono_l; lia). lia.
Qed.

(** X17. [icbrt] is monotone on the non-negative [int]s, with values in
    [[0, 1290]]. *)
Theorem icbrt_monotone x x' :
  0 <= x -> x <= x' -> x' < 2 ^ 31 ->
  exists y y', icbrt x = Some y /\ icbrt x' = Some y' /\
    0 <= y /\ y <= y' /\ y' <= 1290.
Proof.
  intros H0 Hle Hu.
  destruct (icbrt_floor x ltac:(lia)) as (y & E & R & B).
  destruct (icbrt_floor x' ltac:(lia)) as (y' & E' & R' & B').
  exists y, y'. repeat split; try assumption; try lia.
  apply cube_lt; lia.
Qed.

Lemma icbrt_monotone_witness :
  0 <= 26 /\ 26 <= 27 /\ 27 < 2 ^ 31 /\
  exists y y', icbrt 26 = Some y /\ icbrt 27 = Some y' /\
    0 <= y /\ y <= y' /\ y' <= 1290.
Proof.
  assert (H0 : 0 <= 26) by lia. assert (Hle : 26 <= 27) by lia.
  assert (Hu : 27 < 2 ^ 31) by lia.
  split; [exact H0|]. split; [exact Hle|]. split; [exact Hu|].
  exact (icbrt_monotone 26 27 H0 Hle Hu).
Defined.

(** X18. [icbrt] inverts the cube on every [y] whose cube is an [int]. *)
Theorem icbrt_of_cube y : 0 <= y <= 1290 -> icbrt (y ^ 3) = Some y.
Proof.
  intros Hy.
  assert (C : 0 <= y ^ 3 < 2 ^ 31).
  { split; [apply Z.pow_nonneg; lia|].
    apply Z.le_lt_trans with (1290 ^ 3); [apply Z.pow_le_mono_l; lia|].
    reflexivity. }
  destruct (icbrt_floor (y ^ 3) C) as (r & E & R & B).
  rewrite E. f_equal.
  assert (r <= y) by (apply cube_lt; lia).
  assert (y <= r) by (apply cube_lt; lia).
  lia.
Qed.

Lemma icbrt_of_cube_witness :
  0 <= 1290 <= 1290 /\ icbrt (1290 ^ 3) = Some 1290.
Proof.
  assert (Hy : 0 <= 1290 <= 1290) by lia.
  split; [exact Hy|]. exact (icbrt_of_cube 1290 Hy).
Defined.

(** ** [Log2]: the floor of the binary logarithm *)

(** X19. For every [size_t] constant [N >= 1], [Log2<N>::Value] is the [v] with
    [2^v <= N < 2^(v+1)], reached within the 64 nested instantiations. *)
Theorem Log2_floor N :
  1 <= N < 2 ^ 64 ->
  exists v, Log2 N = Some v /\ 0 <= v < 64 /\ 2 ^ v <= N < 2 ^ (v + 1).
Proof.
  intros HN. exists (Z.log2 N). split; [apply Log2_spec; exact HN|].
  destruct (Z.log2_spec N ltac:(lia)) as [Lo Hi].
  replace (Z.succ (Z.log2 N)) with (Z.log2 N + 1) in Hi by lia.
  pose proof (Z.log2_nonneg N).
  assert (Z.log2 N < 64) by (apply Z.log2_lt_pow2; lia).
  lia.
Qed.

Lemma Log2_floor_witness :
  1 <= 1000 < 2 ^ 64 /\
  exists v, Log2 1000 = Some v /\ 0 <= v < 64 /\ 2 ^ v <= 1000 < 2 ^ (v + 1).
Proof.
  assert (HN : 1 <= 1000 < 2 ^ 64) by lia.
  split; [exact HN|]. exact (Log2_floor 1000 HN).
Defined.

(** X20. [Log2<0>] has no value, at whatever depth the instantiation is cut. *)
Theorem Log2_zero_has_no_value :
  (forall depth I, Log2_inst depth 0 I = None) /\ Log2 0 = None.
Proof. split; [exact Log2_inst_zero | apply Log2_inst_zero]. Qed.

(** ** [ilog2]: shifts, range and monotonicity *)

(** As long as the interval is at least [2^n - 1] long with [n] iterations
    to go, every shift amount is below the width. *)
Lemma ilog2_loop_checked_ok w t all (n : nat) :
  0 < w <= 64 ->
  forall a b, 0 <= a -> b <= w -> 2 ^ Z.of_nat n - 1 <= b - a ->
    ilog2_loop_checked n w t all a b = Some (ilog2_loop n w t all a b).
Proof.
  intros Hw. induction n as [|n IH]; intros a b Ha Hb Hg; [reflexivity|].
  cbn [ilog2_loop_checked ilog2_loop].
  rewrite Nat2Z.inj_succ, Z.pow_succ_r in Hg by lia.
  assert (P : 1 <= 2 ^ Z.of_nat n).
  { change 1 with (2 ^ 0). apply Z.pow_le_mono_r; lia. }
  rewrite (size_t_small a) by (change (2 ^ 64) with 18446744073709551616; lia).
  rewrite (size_t_small (a + b))
    by (change (2 ^ 64) with 18446744073709551616; lia).
  assert (Hm : a <= (a + b) / 2 < b) by (Z.div_mod_to_equations; lia).
  assert (Wlt : w < 2 ^ w) by (apply Z.pow_gt_lin_r; lia).
  rewrite (Z.mod_small ((a + b) / 2) (2 ^ w) ltac:(lia)
           : to_unsigned w ((a + b) / 2) = (a + b) / 2).
  destruct (Z.ltb_spec ((a + b) / 2) w) as [_|]; [|lia].
  destruct (negb (Z.land t _ =? 0)).
  - rewrite size_t_small by (change (2 ^ 64) with 18446744073709551616; lia).
    rewrite i32_small by (change (2 ^ 31) with 2147483648; lia).
    apply IH; [lia | lia | Z.div_mod_to_equations; lia].
  - apply IH; [lia | lia | Z.div_mod_to_equations; lia].
Qed.

(** X21. No iteration of [ilog2] shifts by the width of [T] or more, whatever
    the argument: the guarded run ends with the result of [ilog2]. *)
Theorem ilog2_shift_in_range T t :
  exists a, ilog2_checked T t = Some a /\ ilog2 T t = Some a.
Proof.
  unfold ilog2_checked, ilog2.
  destruct (Log2_bits T) as (n & -> & E). rewrite Nat2Z.id.
  eexists. split; [|reflexivity].
  apply ilog2_loop_checked_ok; [apply bits_range | lia | lia |].
  rewrite <- E. lia.
Qed.

Lemma ilog2_range T t :
  0 <= t < 2 ^ bits T ->
  0 <= (if t <? 2 then 0 else Z.log2 t + 1) <= bits T.
Proof.
  intros Ht. pose proof (bits_range T). pose proof (Z.log2_nonneg t).
  destruct (Z.ltb_spec t 2); [lia|].
  assert (Z.log2 t < bits T) by (apply Z.log2_lt_pow2; lia). lia.
Qed.

(** X22. [ilog2] is monotone, with values between 0 and the width of [T]. *)
Theorem ilog2_monotone T t t' :
  0 <= t -> t <= t' -> t' < 2 ^ bits T ->
  exists a a', ilog2 T t = Some a /\ ilog2 T t' = Some a' /\
    0 <= a /\ a <= a' /\ a' <= bits T.
Proof.
  intros H0 Hle Hu. rewrite !ilog2_eq by lia.
  do 2 eexists. split; [reflexivity|]. split; [reflexivity|].
  pose proof (ilog2_range T t ltac:(lia)).
  pose proof (ilog2_range T t' ltac:(lia)).
  pose proof (Z.log2_le_mono t t' Hle). pose proof (Z.log2_nonneg t').
  destruct (Z.ltb_spec t 2); destruct (Z.ltb_spec t' 2); lia.
Qed.

Lemma ilog2_monotone_witness :
  0 <= 3 /\ 3 <= 200 /\ 200 < 2 ^ bits UInt8 /\
  exists a a', ilog2 UInt8 3 = Some a /\ ilog2 UInt8 200 = Some a' /\
    0 <= a /\ a <= a' /\ a' <= bits UInt8.
Proof.
  assert (H0 : 0 <= 3) by lia. assert (Hle : 3 <= 200) by lia.
  assert (Hu : 200 < 2 ^ bits UInt8) by (unfold bits, sizeof; simpl; lia).
  split; [exact H0|]. split; [exact Hle|]. split; [exact Hu|].
  exact (ilog2_monotone UInt8 3 200 H0 Hle Hu).
Defined.



(** X24. [ilog2] never returns 1: it returns 0 below 2 and at least 2
    from 2 on. *)
Theorem ilog2_never_one T t :
  0 <= t < 2 ^ bits T ->
  exists a, ilog2 T t = Some a /\ a <> 1 /\
    (t < 2 -> a = 0) /\ (2 <= t -> 2 <= a).
Proof.
  intros Ht. rewrite ilog2_eq by lia.
  eexists. split; [reflexivity|].
  destruct (Z.ltb_spec t 2) as [L|G]; [repeat split; lia|].
  assert (1 <= Z.log2 t).
  { change 1 with (Z.log2 2). apply Z.log2_le_mono. lia. }
  repeat split; lia.
Qed.

Lemma ilog2_never_one_witness :
  0 <= 2 < 2 ^ bits UInt32 /\
  exists a, ilog2 UInt32 2 = Some a /\ a <> 1 /\
    (2 < 2 -> a = 0) /\ (2 <= 2 -> 2 <= a).
Proof.
  assert (Ht : 0 <= 2 < 2 ^ bits UInt32) by (unfold bits, sizeof; simpl; lia).
  split; [exact Ht|]. exact (ilog2_never_one UInt32 2 Ht).
Defined.
